(** * The [logging] package of micropython-lib: model and verified properties

    A shallow embedding of [logging/__init__.py].  Python objects that the
    module mutates (loggers, handlers, log records) live in heaps indexed
    by locations; module globals are fields of the program state; methods
    are computations in a state-and-exception monad in which the state
    survives a raised exception, as it does in Python. *)

From Stdlib Require Import ZArith QArith String Ascii List Lia Bool DecimalString.
From stdpp Require Import base gmap strings list.

Set Warnings "-register-all".
Open Scope string_scope.
Open Scope list_scope.
Open Scope Z_scope.

(** ** Python values that reach the module *)

Inductive value :=
| VNone
| VInt (z : Z)
| VFloat (q : Q)
| VStr (s : string)
| VTuple (items : list value)
| VObj (id : nat).

(** Numbers.  [utime.time()] returns an integer on the ports built without
    floating point and a float on the others.  A float is kept as the
    rational number it denotes. *)
Inductive number :=
| NInt (z : Z)
| NFloat (q : Q).

Coercion NInt : Z >-> number.

Definition number_value (x : number) : value :=
  match x with
  | NInt z => VInt z
  | NFloat q => VFloat q
  end.

(** [int(x)]: an integer is itself, a float is truncated towards zero. *)
Definition number_int (x : number) : Z :=
  match x with
  | NInt z => z
  | NFloat q => Z.quot (Qnum q) (Zpos (Qden q))
  end.

(** Truth value of an optional string, as tested by [x or default]. *)
Definition str_or (x : option string) (default : string) : string :=
  match x with
  | Some (String c s) => String c s
  | _ => default
  end.

(** ** Exceptions

    The [raise] statements of the module are enumerated; every other
    exception comes out of the interpreter or a built-in. *)

Inductive raise_site :=
| EmitNotImplemented                      (* Handler.emit *)
| StyleMustBeOneOf                        (* Formatter.__init__ *)
| StyleNotSupported (style : string)      (* Formatter.format, final else *)
| FormatExceptionNotImplemented           (* Formatter.formatException *)
| FormatStackNotImplemented.              (* Formatter.formatStack *)

Inductive exn :=
| Raised (site : raise_site)
| Builtin (cls : string) (detail : string).

Definition exn_class (e : exn) : string :=
  match e with
  | Raised EmitNotImplemented => "NotImplementedError"
  | Raised StyleMustBeOneOf => "ValueError"
  | Raised (StyleNotSupported _) => "ValueError"
  | Raised FormatExceptionNotImplemented => "NotImplementedError"
  | Raised FormatStackNotImplemented => "NotImplementedError"
  | Builtin cls _ => cls
  end.

Definition exn_message (e : exn) : string :=
  match e with
  | Raised EmitNotImplemented => "emit must be implementedby Handler subclasses"
  | Raised StyleMustBeOneOf => "Style must be one of: %, {"
  | Raised (StyleNotSupported s) => "Style " +:+ s +:+ " is not supported by logging."
  | Raised FormatExceptionNotImplemented => ""
  | Raised FormatStackNotImplemented => ""
  | Builtin _ d => d
  end.

Inductive Res (A : Type) :=
| Ok (a : A)
| Raise (e : exn).
Arguments Ok {A} a.
Arguments Raise {A} e.

(** What a built-in or a callable passed in from outside does: it returns,
    or fails with an exception of its own. *)
Inductive builtin_result (A : Type) :=
| Returns (a : A)
| Fails (cls : string) (detail : string).
Arguments Returns {A} a.
Arguments Fails {A} cls detail.

Definition of_builtin {A} (r : builtin_result A) : Res A :=
  match r with
  | Returns a => Ok a
  | Fails cls detail => Raise (Builtin cls detail)
  end.

(** ** Objects of the module *)

Definition loc := nat.

(** [Formatter]: [converter] and [formatException] are callables; a
    subclass overrides [formatException] by replacing the field. *)
Record Formatter := mkFormatter {
  Formatter_fmt : string;
  Formatter_datefmt : string;
  Formatter_converter : number -> builtin_result (list value);
  Formatter_style : string;
  formatException : value -> Res string      (* the method [self.formatException] resolves to *)
}.

(** [LogRecord]: the attributes assigned by [__init__], then the three
    that only [Formatter.format] assigns ([None] here: attribute absent). *)
Record LogRecord := mkLogRecord {
  LogRecord_created : number;
  LogRecord_msecs : number;
  LogRecord_name : string;
  LogRecord_levelno : Z;
  LogRecord_levelname : value;
  LogRecord_pathname : value;
  LogRecord_lineno : value;
  LogRecord_msg : string;
  LogRecord_args : list value;
  LogRecord_exc_info : value;
  LogRecord_func : value;
  LogRecord_sinfo : value;
  LogRecord_module : string;
  LogRecord_message : option string;
  LogRecord_asctime : option string;
  LogRecord_exc_text : option string
}.

Inductive stream :=
| sys_stderr
| Stream (id : nat).

(** The handler classes of the module, with the attributes each adds. *)
Inductive HandlerClass :=
| BaseHandler
| StreamHandler (_stream : stream) (terminator : string)
| FileHandler (filename mode : string) (encoding : value) (delay : bool)
              (terminator : string) (_f : bool)
| UDPHandler (_addr : string * Z) (terminator : string).

Record Handler := mkHandler {
  Handler_formatter : Formatter;
  Handler_level : Z;
  Handler_class : HandlerClass
}.

(** [Logger.handlers] is [None] until the first [addHandler]. *)
Record Logger := mkLogger {
  Logger_name : string;
  Logger_level : Z;
  Logger_handlers : option (list loc)
}.

(** ** Observable events

    Calls whose occurrence the properties speak about, and the traffic to
    the sinks, are recorded in order. *)

Inductive sink :=
| ToStream (s : stream)
| ToFile (filename : string)
| ToSocket (addr : string * Z).

Inductive Event :=
| EvHandle (h r : loc)                 (* Logger.log: hdlr.handle(record) *)
| EvEmit (h r : loc)                   (* Handler.handle: self.emit(record) *)
| EvConverter (t : number)             (* formatTime: self.converter(record.created) *)
| EvOpen (filename mode : string)      (* open(self.filename, self.mode) *)
| EvWrite (k : sink) (text : string)   (* write / sendto *)
| EvFlush (filename : string).         (* self._f.flush() *)

(** ** Program state: module globals, heaps, environment, event log *)

Record State := mkState {
  _level_dict : gmap Z string;
  _level : Z;
  _loggers : gmap string loc;
  root : option loc;
  heap_loggers : list Logger;
  heap_handlers : list Handler;
  heap_records : list LogRecord;
  utime_time : number;                 (* what utime.time() returns *)
  sys_exc_value : value;               (* sys.exc_info()[1] *)
  trace : list Event
}.

Definition set_level_dict (f : gmap Z string -> gmap Z string) (st : State) : State :=
  mkState (f (_level_dict st)) (_level st) (_loggers st) (root st)
          (heap_loggers st) (heap_handlers st) (heap_records st)
          (utime_time st) (sys_exc_value st) (trace st).
Definition set_level (z : Z) (st : State) : State :=
  mkState (_level_dict st) z (_loggers st) (root st)
          (heap_loggers st) (heap_handlers st) (heap_records st)
          (utime_time st) (sys_exc_value st) (trace st).
Definition set_loggers (f : gmap string loc -> gmap string loc) (st : State) : State :=
  mkState (_level_dict st) (_level st) (f (_loggers st)) (root st)
          (heap_loggers st) (heap_handlers st) (heap_records st)
          (utime_time st) (sys_exc_value st) (trace st).
Definition set_root (l : loc) (st : State) : State :=
  mkState (_level_dict st) (_level st) (_loggers st) (Some l)
          (heap_loggers st) (heap_handlers st) (heap_records st)
          (utime_time st) (sys_exc_value st) (trace st).
Definition set_heap_loggers (f : list Logger -> list Logger) (st : State) : State :=
  mkState (_level_dict st) (_level st) (_loggers st) (root st)
          (f (heap_loggers st)) (heap_handlers st) (heap_records st)
          (utime_time st) (sys_exc_value st) (trace st).
Definition set_heap_handlers (f : list Handler -> list Handler) (st : State) : State :=
  mkState (_level_dict st) (_level st) (_loggers st) (root st)
          (heap_loggers st) (f (heap_handlers st)) (heap_records st)
          (utime_time st) (sys_exc_value st) (trace st).
Definition set_heap_records (f : list LogRecord -> list LogRecord) (st : State) : State :=
  mkState (_level_dict st) (_level st) (_loggers st) (root st)
          (heap_loggers st) (heap_handlers st) (f (heap_records st))
          (utime_time st) (sys_exc_value st) (trace st).
Definition set_trace (f : list Event -> list Event) (st : State) : State :=
  mkState (_level_dict st) (_level st) (_loggers st) (root st)
          (heap_loggers st) (heap_handlers st) (heap_records st)
          (utime_time st) (sys_exc_value st) (f (trace st)).

(** ** The monad of Python statements

    A computation returns a value or raises; the state it leaves behind is
    kept in both cases. *)

Definition M (A : Type) : Type := State -> Res A * State.

Definition ret {A} (a : A) : M A := fun st => (Ok a, st).
Definition raise {A} (e : exn) : M A := fun st => (Raise e, st).
Definition bind {A B} (m : M A) (k : A -> M B) : M B :=
  fun st =>
    match m st with
    | (Ok a, st') => k a st'
    | (Raise e, st') => (Raise e, st')
    end.
Definition lift {A} (r : Res A) : M A := fun st => (r, st).
Definition builtin {A} (r : builtin_result A) : M A := lift (of_builtin r).
Definition get : M State := fun st => (Ok st, st).
Definition modify (f : State -> State) : M unit := fun st => (Ok tt, f st).
Definition tell (ev : Event) : M unit := modify (set_trace (fun t => t ++ [ev])).

Declare Scope py_scope.
Delimit Scope py_scope with py.
Notation "x <- m ;; k" := (bind m (fun x => k))
  (at level 100, m at next level, right associativity) : py_scope.
Notation "m ;; k" := (bind m (fun _ => k))
  (at level 100, right associativity) : py_scope.
Open Scope py_scope.

(** Dereferencing.  Python references are never dangling; a location
    outside its heap is answered with an interpreter error. *)
Definition deref {A} (heap : State -> list A) (what : string) (l : loc) : M A :=
  fun st =>
    match heap st !! l with
    | Some a => (Ok a, st)
    | None => (Raise (Builtin "SystemError" ("no such " +:+ what)), st)
    end.
Definition the_logger : loc -> M Logger := deref heap_loggers "Logger".
Definition the_handler : loc -> M Handler := deref heap_handlers "Handler".
Definition the_record : loc -> M LogRecord := deref heap_records "LogRecord".

Definition alloc_logger (L : Logger) : M loc :=
  fun st => (Ok (length (heap_loggers st)), set_heap_loggers (fun h => h ++ [L]) st).
Definition alloc_handler (H : Handler) : M loc :=
  fun st => (Ok (length (heap_handlers st)), set_heap_handlers (fun h => h ++ [H]) st).
Definition alloc_record (R : LogRecord) : M loc :=
  fun st => (Ok (length (heap_records st)), set_heap_records (fun h => h ++ [R]) st).

Definition update_logger (l : loc) (f : Logger -> Logger) : M unit :=
  L <- the_logger l ;; modify (set_heap_loggers (fun h => <[l := f L]> h)).
Definition update_handler (l : loc) (f : Handler -> Handler) : M unit :=
  H <- the_handler l ;; modify (set_heap_handlers (fun h => <[l := f H]> h)).
Definition update_record (l : loc) (f : LogRecord -> LogRecord) : M unit :=
  R <- the_record l ;; modify (set_heap_records (fun h => <[l := f R]> h)).

(** ** Built-ins and environment the module calls

    String formatting, the clock conversion, exception printing, the
    sinks and the format of the floats belong to the interpreter and its
    host, not to the module. *)

Inductive operand :=
| OTuple (items : list value)              (* str % tuple *)
| ODict (d : list (string * value))        (* str % dict *)
| OSingle (v : value).                     (* str % other *)

Class Host := {
  str_mod : string -> operand -> builtin_result string;
  str_format : string -> list value -> list (string * value) -> builtin_result string;
  utime_localtime : number -> builtin_result (list value);
  sys_print_exception : value -> builtin_result string;
  open_file : string -> string -> builtin_result unit;
  sink_write : sink -> string -> builtin_result unit;
  float_round : Q -> Q                 (* the float that stands for a real result *)
}.

(** Arithmetic on numbers.  Integers are exact.  As soon as an operand is
    a float the other one is converted to a float, and the result is the
    float that stands for the exact result. *)
Definition to_float {host : Host} (x : number) : Q :=
  match x with
  | NInt z => float_round (inject_Z z)
  | NFloat q => q
  end.

Definition number_sub {host : Host} (x y : number) : number :=
  match x, y with
  | NInt a, NInt b => NInt (a - b)
  | _, _ => NFloat (float_round (to_float x - to_float y))
  end.

Definition number_mul {host : Host} (x y : number) : number :=
  match x, y with
  | NInt a, NInt b => NInt (a * b)
  | _, _ => NFloat (float_round (to_float x * to_float y))
  end.

(** [needle in hay] on strings. *)
Fixpoint str_in (needle hay : string) : bool :=
  match hay with
  | EmptyString => String.prefix needle EmptyString
  | String _ rest => String.prefix needle hay || str_in needle rest
  end.

(** The conversion types of the [%] operator. *)
Definition is_conversion_type (c : ascii) : bool :=
  str_in (String c EmptyString) "diouxXeEfFgGcrsa".

(** A message has a bare directive when, reading from the left past
    ordinary characters and [%%] pairs, the first other [%] is directly
    followed by a conversion type. *)
Fixpoint bare_directive (s : string) : bool :=
  match s with
  | EmptyString => false
  | String c rest =>
      if (c =? "%")%char then
        match rest with
        | EmptyString => false
        | String d rest' =>
            if (d =? "%")%char then bare_directive rest' else is_conversion_type d
        end
      else bare_directive rest
  end.

(** What every Python gives for such a message and the empty tuple: the
    directive finds no argument and the operator fails. *)
Definition needs_arguments (host : Host) : Prop :=
  forall s, bare_directive s = true ->
    exists cls detail, str_mod s (OTuple []) = Fails cls detail.

(** [a or b] on integers: [a] unless it is zero. *)
Definition int_or (a b : Z) : Z := if a =? 0 then b else a.

Definition newline : string := String (ascii_of_nat 10) EmptyString.

Definition CRITICAL : Z := 50.
Definition ERROR : Z := 40.
Definition WARNING : Z := 30.
Definition INFO : Z := 20.
Definition DEBUG : Z := 10.
Definition LLDEBUG : Z := 5.
Definition NOTSET : Z := 0.

Definition level_names : gmap Z string :=
  <[CRITICAL := "CRITICAL"]> (<[ERROR := "ERROR"]> (<[WARNING := "WARNING"]>
  (<[INFO := "INFO"]> (<[DEBUG := "DEBUG"]> (<[LLDEBUG := "LLDEBUG"]> ∅))))).

Definition addLevelName (level : Z) (name : string) : M unit :=
  modify (set_level_dict (fun d => <[level := name]> d)).

(** ** LogRecord *)

Definition LogRecord_init {host : Host} (name : string) (level : Z)
    (pathname lineno : value) (msg : string) (args : list value)
    (exc_info func sinfo : value) (module : option string) : M loc :=
  st <- get ;;
  let ct := utime_time st in
  alloc_record
    (mkLogRecord ct (number_mul (number_sub ct (number_int ct)) 1000) name level
       (match _level_dict st !! level with Some n => VStr n | None => VNone end)
       pathname lineno msg args exc_info func sinfo
       (str_or module "<?>") None None None).

(** [record.__dict__] *)
Definition opt_item (key : string) (v : option string) : list (string * value) :=
  match v with
  | Some s => [(key, VStr s)]
  | None => []
  end.

Definition LogRecord_dict (R : LogRecord) : list (string * value) :=
  [ ("created", number_value (LogRecord_created R));
    ("msecs", number_value (LogRecord_msecs R));
    ("name", VStr (LogRecord_name R));
    ("levelno", VInt (LogRecord_levelno R));
    ("levelname", LogRecord_levelname R);
    ("pathname", LogRecord_pathname R);
    ("lineno", LogRecord_lineno R);
    ("msg", VStr (LogRecord_msg R));
    ("args", VTuple (LogRecord_args R));
    ("exc_info", LogRecord_exc_info R);
    ("func", LogRecord_func R);
    ("sinfo", LogRecord_sinfo R);
    ("module", VStr (LogRecord_module R)) ]
  ++ opt_item "message" (LogRecord_message R)
  ++ opt_item "asctime" (LogRecord_asctime R)
  ++ opt_item "exc_text" (LogRecord_exc_text R).

Definition set_message (s : string) (R : LogRecord) : LogRecord :=
  mkLogRecord (LogRecord_created R) (LogRecord_msecs R) (LogRecord_name R)
    (LogRecord_levelno R) (LogRecord_levelname R) (LogRecord_pathname R)
    (LogRecord_lineno R) (LogRecord_msg R) (LogRecord_args R)
    (LogRecord_exc_info R) (LogRecord_func R) (LogRecord_sinfo R)
    (LogRecord_module R) (Some s) (LogRecord_asctime R) (LogRecord_exc_text R).
Definition set_asctime (s : string) (R : LogRecord) : LogRecord :=
  mkLogRecord (LogRecord_created R) (LogRecord_msecs R) (LogRecord_name R)
    (LogRecord_levelno R) (LogRecord_levelname R) (LogRecord_pathname R)
    (LogRecord_lineno R) (LogRecord_msg R) (LogRecord_args R)
    (LogRecord_exc_info R) (LogRecord_func R) (LogRecord_sinfo R)
    (LogRecord_module R) (LogRecord_message R) (Some s) (LogRecord_exc_text R).
Definition set_exc_text (s : string) (R : LogRecord) : LogRecord :=
  mkLogRecord (LogRecord_created R) (LogRecord_msecs R) (LogRecord_name R)
    (LogRecord_levelno R) (LogRecord_levelname R) (LogRecord_pathname R)
    (LogRecord_lineno R) (LogRecord_msg R) (LogRecord_args R)
    (LogRecord_exc_info R) (LogRecord_func R) (LogRecord_sinfo R)
    (LogRecord_module R) (LogRecord_message R) (LogRecord_asctime R) (Some s).

(** Reading an attribute that may not have been assigned yet. *)
Definition getattr (cls attr : string) (v : option string) : M string :=
  match v with
  | Some s => ret s
  | None => raise (Builtin "AttributeError"
                     ("'" +:+ cls +:+ "' object has no attribute '" +:+ attr +:+ "'"))
  end.

Definition is_None (v : value) : bool :=
  match v with
  | VNone => true
  | _ => false
  end.

Section Logging.
Context {host : Host}.

(** ** Formatter *)

Definition Formatter_formatException (exc_info : value) : Res string :=
  Raise (Raised FormatExceptionNotImplemented).

Definition Formatter_formatStack (stack_info : value) : Res string :=
  Raise (Raised FormatStackNotImplemented).

Definition Formatter_init (fmt datefmt : option string) (style : string)
    (converter : option (number -> builtin_result (list value))) : Res Formatter :=
  let fmt := str_or fmt "%(message)s" in
  let datefmt := str_or datefmt "{0}-{1}-{2} {3}:{4}:{5}" in
  let converter := match converter with Some c => c | None => utime_localtime end in
  if negb ((style =? "%")%string || (style =? "{")%string)
  then Raise (Raised StyleMustBeOneOf)
  else Ok (mkFormatter fmt datefmt converter style Formatter_formatException).

(** [usesTime] falls off its [if]/[elif] for any other style and then
    returns Python's [None]. *)
Definition Formatter_usesTime (self : Formatter) : option bool :=
  if (Formatter_style self =? "%")%string
  then Some (str_in "%(asctime)" (Formatter_fmt self))
  else if (Formatter_style self =? "{")%string
  then Some (str_in "{asctime" (Formatter_fmt self))
  else None.

Definition truthy (b : option bool) : bool :=
  match b with
  | Some true => true
  | _ => false
  end.

Definition Formatter_formatTime (self : Formatter) (record : loc) (datefmt : string)
    : M string :=
  R <- the_record record ;;
  tell (EvConverter (LogRecord_created R)) ;;
  ct <- builtin (Formatter_converter self (LogRecord_created R)) ;;
  builtin (str_format datefmt ct []).

Definition Formatter_format (self : Formatter) (record : loc) : M string :=
  R <- the_record record ;;
  message <- builtin (str_mod (LogRecord_msg R) (OTuple (LogRecord_args R))) ;;
  update_record record (set_message message) ;;
  (if truthy (Formatter_usesTime self)
   then asctime <- Formatter_formatTime self record (Formatter_datefmt self) ;;
        update_record record (set_asctime asctime)
   else ret tt) ;;
  R <- the_record record ;;
  (if negb (is_None (LogRecord_exc_info R))
   then exc_text <- getattr "LogRecord" "exc_text" (LogRecord_exc_text R) ;;
        rendered <- lift (formatException self (LogRecord_exc_info R)) ;;
        update_record record (set_exc_text (exc_text +:+ rendered)) ;;
        R <- the_record record ;;
        message <- getattr "LogRecord" "message" (LogRecord_message R) ;;
        exc_text <- getattr "LogRecord" "exc_text" (LogRecord_exc_text R) ;;
        update_record record (set_message (message +:+ (newline +:+ exc_text)))
   else ret tt) ;;
  R <- the_record record ;;
  if (Formatter_style self =? "%")%string
  then builtin (str_mod (Formatter_fmt self) (ODict (LogRecord_dict R)))
  else if (Formatter_style self =? "{")%string
  then builtin (str_format (Formatter_fmt self) [] (LogRecord_dict R))
  else raise (Raised (StyleNotSupported (Formatter_style self))).

(** ** Handler and its subclasses *)

Definition Handler_init (class : HandlerClass) (formatter : option Formatter)
    (level : Z) : M loc :=
  formatter <- match formatter with
               | Some f => ret f
               | None => lift (Formatter_init None None "%" None)
               end ;;
  alloc_handler (mkHandler formatter level class).

Definition Handler_setFormatter (self : loc) (fmt : Formatter) : M unit :=
  update_handler self (fun H => mkHandler fmt (Handler_level H) (Handler_class H)).

Definition Handler_setLevel (self : loc) (level : Z) : M unit :=
  update_handler self (fun H => mkHandler (Handler_formatter H) level (Handler_class H)).

Definition StreamHandler_init (formatter : option Formatter) (level : Z)
    (stream : option stream) : M loc :=
  Handler_init (StreamHandler (match stream with Some s => s | None => sys_stderr end)
                              newline)
               formatter level.

Definition mark_open (H : Handler) : Handler :=
  match Handler_class H with
  | FileHandler filename mode encoding delay terminator _ =>
      mkHandler (Handler_formatter H) (Handler_level H)
                (FileHandler filename mode encoding delay terminator true)
  | _ => H
  end.

Definition open_into (self : loc) (filename mode : string) : M unit :=
  tell (EvOpen filename mode) ;;
  builtin (open_file filename mode) ;;
  update_handler self mark_open.

Definition FileHandler_init (filename : string) (formatter : option Formatter)
    (level : Z) (mode : string) (encoding : value) (delay : bool) : M loc :=
  self <- Handler_init (FileHandler filename mode encoding delay newline false)
                       formatter level ;;
  (if negb delay then open_into self filename mode else ret tt) ;;
  ret self.

Definition write (k : sink) (text : string) : M unit :=
  tell (EvWrite k text) ;;
  builtin (sink_write k text).

(** [emit], resolved on the class of [self]. *)
Definition Handler_emit (self : loc) (record : loc) : M unit :=
  H <- the_handler self ;;
  match Handler_class H with
  | BaseHandler => raise (Raised EmitNotImplemented)
  | StreamHandler _stream terminator =>
      text <- Formatter_format (Handler_formatter H) record ;;
      write (ToStream _stream) (text +:+ terminator)
  | FileHandler filename mode _ _ terminator _f =>
      (if negb _f then open_into self filename mode else ret tt) ;;
      text <- Formatter_format (Handler_formatter H) record ;;
      write (ToFile filename) (text +:+ terminator) ;;
      tell (EvFlush filename)
  | UDPHandler _addr terminator =>
      text <- Formatter_format (Handler_formatter H) record ;;
      write (ToSocket _addr) (text +:+ terminator)
  end.

Definition Handler_handle (self : loc) (record : loc) : M unit :=
  H <- the_handler self ;;
  R <- the_record record ;;
  st <- get ;;
  if LogRecord_levelno R >=? int_or (Handler_level H) (_level st)
  then tell (EvEmit self record) ;; Handler_emit self record
  else ret tt.

(** ** Logger *)

Definition Logger_init (name : string) : M loc :=
  alloc_logger (mkLogger name NOTSET None).

Definition Logger__level_str (self : loc) (level : Z) : M string :=
  st <- get ;;
  match _level_dict st !! level with
  | Some l => ret l
  | None => builtin (str_mod "LVL%s" (OSingle (VInt level)))
  end.

Definition Logger_setLevel (self : loc) (level : Z) : M unit :=
  update_logger self (fun L => mkLogger (Logger_name L) level (Logger_handlers L)).

Definition Logger_isEnabledFor (self : loc) (level : Z) : M bool :=
  L <- the_logger self ;;
  st <- get ;;
  ret (level >=? int_or (Logger_level L) (_level st)).

(** The loop [for hdlr in self.handlers: hdlr.handle(record)]. *)
Fixpoint for_hdlr (hdlrs : list loc) (record : loc) : M unit :=
  match hdlrs with
  | [] => ret tt
  | hdlr :: rest =>
      tell (EvHandle hdlr record) ;;
      Handler_handle hdlr record ;;
      for_hdlr rest record
  end.

Definition Logger_log (self : loc) (level : Z) (msg : string) (args : list value)
    (module : option string) : M unit :=
  L <- the_logger self ;;
  st <- get ;;
  if level >=? int_or (Logger_level L) (_level st)
  then
    record <- LogRecord_init (Logger_name L) level VNone VNone msg args
                             VNone VNone VNone module ;;
    L <- the_logger self ;;
    match Logger_handlers L with
    | Some (hdlr :: rest) => for_hdlr (hdlr :: rest) record
    | _ => ret tt
    end
  else ret tt.

Definition Logger_lldebug (self : loc) msg args module : M unit :=
  Logger_log self LLDEBUG msg args module.
Definition Logger_debug (self : loc) msg args module : M unit :=
  Logger_log self DEBUG msg args module.
Definition Logger_info (self : loc) msg args module : M unit :=
  Logger_log self INFO msg args module.
Definition Logger_warning (self : loc) msg args module : M unit :=
  Logger_log self WARNING msg args module.
Definition Logger_warn := Logger_warning.
Definition Logger_error (self : loc) msg args module : M unit :=
  Logger_log self ERROR msg args module.
Definition Logger_critical (self : loc) msg args module : M unit :=
  Logger_log self CRITICAL msg args module.

Definition Logger_exc (self : loc) (e : value) (msg : string) (args : list value)
    (module : option string) : M unit :=
  buf <- builtin (sys_print_exception e) ;;
  Logger_log self ERROR (msg +:+ newline +:+ buf) args module.

Definition Logger_exception (self : loc) (msg : string) (args : list value)
    (module : option string) : M unit :=
  st <- get ;;
  Logger_exc self (sys_exc_value st) msg args module.

Definition Logger_addHandler (self : loc) (hdlr : loc) : M unit :=
  update_logger self (fun L =>
    mkLogger (Logger_name L) (Logger_level L)
             (Some (match Logger_handlers L with
                    | None => []
                    | Some hs => hs
                    end ++ [hdlr]))).

(** ** Module level *)

Definition getLogger (name : option string) : M loc :=
  let name := match name with None => "root" | Some n => n end in
  st <- get ;;
  match _loggers st !! name with
  | Some l => ret l
  | None =>
      l <- (if (name =? "root")%string
            then l <- Logger_init name ;;
                 sh <- StreamHandler_init None NOTSET None ;;
                 f <- lift (Formatter_init None None "%" None) ;;
                 Handler_setFormatter sh f ;;
                 Logger_addHandler l sh ;;
                 ret l
            else Logger_init name) ;;
      modify (set_loggers (fun d => <[name := l]> d)) ;;
      ret l
  end.

Definition info (msg : string) (args : list value) (module : option string) : M unit :=
  l <- getLogger None ;; Logger_info l msg args module.
Definition debug (msg : string) (args : list value) (module : option string) : M unit :=
  l <- getLogger None ;; Logger_debug l msg args module.
Definition warning (msg : string) (args : list value) : M unit :=
  l <- getLogger None ;; Logger_warning l msg args None.
Definition warn := warning.
Definition error (msg : string) (args : list value) : M unit :=
  l <- getLogger None ;; Logger_error l msg args None.
Definition critical (msg : string) (args : list value) : M unit :=
  l <- getLogger None ;; Logger_critical l msg args None.
Definition exception (msg : string) (args : list value) : M unit :=
  l <- getLogger None ;; Logger_exception l msg args None.

(** [basicConfig].  [StreamHandler(stream)] passes [stream] positionally,
    so it lands in the [formatter] parameter of [Handler.__init__] and is
    replaced by [setFormatter] on the next line; [_stream] stays
    [sys.stderr]. *)
Definition basicConfig (level : Z) (filename : option string) (stream : option stream)
    (format : option string) (style : string) : M unit :=
  modify (set_level level) ;;
  h <- match filename with
       | Some (String c s) => FileHandler_init (String c s) None NOTSET "a" VNone false
       | _ => StreamHandler_init None NOTSET None
       end ;;
  f <- lift (Formatter_init format None style None) ;;
  Handler_setFormatter h f ;;
  st <- get ;;
  match root st with
  | None => raise (Builtin "NameError" "name 'root' isn't defined")
  | Some r =>
      R <- the_logger r ;;
      match Logger_handlers R with
      | None => raise (Builtin "AttributeError"
                         "'NoneType' object has no attribute 'clear'")
      | Some _ =>
          update_logger r (fun L => mkLogger (Logger_name L) (Logger_level L) (Some [])) ;;
          Logger_addHandler r h
      end
  end.

(** The module body: the globals of lines 14, 90 and 91, then
    [root = getLogger()]. *)
Definition module_globals (now : number) (exc : value) : State :=
  mkState level_names INFO ∅ None [] [] [] now exc [].

Definition import_module : M unit :=
  l <- getLogger None ;;
  modify (set_root l).

Definition imported (now : number) (exc : value) : State :=
  snd (import_module (module_globals now exc)).

(** ** What a program can do with the module

    The calls a client can make once the module is imported; between two
    calls the clock and the exception being handled may have changed. *)
Inductive call : Type -> Type :=
| call_addLevelName (level : Z) (name : string) : call unit
| call_getLogger (name : option string) : call loc
| call_basicConfig (level : Z) (filename : option string) (stream : option stream)
                   (format : option string) (style : string) : call unit
| call_info (msg : string) (args : list value) (module : option string) : call unit
| call_debug (msg : string) (args : list value) (module : option string) : call unit
| call_warning (msg : string) (args : list value) : call unit
| call_error (msg : string) (args : list value) : call unit
| call_critical (msg : string) (args : list value) : call unit
| call_exception (msg : string) (args : list value) : call unit
| call_Logger_setLevel (self : loc) (level : Z) : call unit
| call_Logger_isEnabledFor (self : loc) (level : Z) : call bool
| call_Logger_log (self : loc) (level : Z) (msg : string) (args : list value)
                  (module : option string) : call unit
| call_Logger_exc (self : loc) (e : value) (msg : string) (args : list value)
                  (module : option string) : call unit
| call_Logger_exception (self : loc) (msg : string) (args : list value)
                        (module : option string) : call unit
| call_Logger_addHandler (self hdlr : loc) : call unit
| call_Handler (formatter : option Formatter) (level : Z) : call loc
| call_StreamHandler (formatter : option Formatter) (level : Z)
                     (stream : option stream) : call loc
| call_FileHandler (filename : string) (formatter : option Formatter) (level : Z)
                   (mode : string) (encoding : value) (delay : bool) : call loc
| call_Handler_setFormatter (self : loc) (fmt : Formatter) : call unit
| call_Handler_setLevel (self : loc) (level : Z) : call unit
| call_Handler_handle (self record : loc) : call unit
| call_Handler_emit (self record : loc) : call unit
| call_LogRecord (name : string) (level : Z) (pathname lineno : value) (msg : string)
                 (args : list value) (exc_info func sinfo : value)
                 (module : option string) : call loc
| call_Formatter_format (self : Formatter) (record : loc) : call string.

Definition run {A} (c : call A) : M A :=
  match c with
  | call_addLevelName level name => addLevelName level name
  | call_getLogger name => getLogger name
  | call_basicConfig level filename stream format style =>
      basicConfig level filename stream format style
  | call_info msg args module => info msg args module
  | call_debug msg args module => debug msg args module
  | call_warning msg args => warning msg args
  | call_error msg args => error msg args
  | call_critical msg args => critical msg args
  | call_exception msg args => exception msg args
  | call_Logger_setLevel self level => Logger_setLevel self level
  | call_Logger_isEnabledFor self level => Logger_isEnabledFor self level
  | call_Logger_log self level msg args module => Logger_log self level msg args module
  | call_Logger_exc self e msg args module => Logger_exc self e msg args module
  | call_Logger_exception self msg args module => Logger_exception self msg args module
  | call_Logger_addHandler self hdlr => Logger_addHandler self hdlr
  | call_Handler formatter level => Handler_init BaseHandler formatter level
  | call_StreamHandler formatter level stream => StreamHandler_init formatter level stream
  | call_FileHandler filename formatter level mode encoding delay =>
      FileHandler_init filename formatter level mode encoding delay
  | call_Handler_setFormatter self fmt => Handler_setFormatter self fmt
  | call_Handler_setLevel self level => Handler_setLevel self level
  | call_Handler_handle self record => Handler_handle self record
  | call_Handler_emit self record => Handler_emit self record
  | call_LogRecord name level pathname lineno msg args exc_info func sinfo module =>
      LogRecord_init name level pathname lineno msg args exc_info func sinfo module
  | call_Formatter_format self record => Formatter_format self record
  end.

Definition set_environment (now : number) (exc : value) (st : State) : State :=
  mkState (_level_dict st) (_level st) (_loggers st) (root st)
          (heap_loggers st) (heap_handlers st) (heap_records st)
          now exc (trace st).

Inductive reachable : State -> Prop :=
| reachable_import now exc : reachable (imported now exc)
| reachable_call st {A} (c : call A) : reachable st -> reachable (snd (run c st))
| reachable_environment st now exc : reachable st -> reachable (set_environment now exc st).

(** ** Auxiliary notions of the statements that depend on the host *)

(** The formatter [Formatter()] builds. *)
Definition default_formatter : Formatter :=
  mkFormatter "%(message)s" "{0}-{1}-{2} {3}:{4}:{5}" utime_localtime "%"
              Formatter_formatException.

(** The handler [getLogger] wires to a root logger it creates. *)
Definition default_handler : Handler :=
  mkHandler default_formatter NOTSET (StreamHandler sys_stderr newline).

(** [format] from the point where the message has been interpolated and
    the time, if used, rendered. *)
Definition format_exc_and_render (self : Formatter) (record : loc) : M string :=
  R <- the_record record ;;
  (if negb (is_None (LogRecord_exc_info R))
   then exc_text <- getattr "LogRecord" "exc_text" (LogRecord_exc_text R) ;;
        rendered <- lift (formatException self (LogRecord_exc_info R)) ;;
        update_record record (set_exc_text (exc_text +:+ rendered)) ;;
        R <- the_record record ;;
        message <- getattr "LogRecord" "message" (LogRecord_message R) ;;
        exc_text <- getattr "LogRecord" "exc_text" (LogRecord_exc_text R) ;;
        update_record record (set_message (message +:+ (newline +:+ exc_text)))
   else ret tt) ;;
  R <- the_record record ;;
  if (Formatter_style self =? "%")%string
  then builtin (str_mod (Formatter_fmt self) (ODict (LogRecord_dict R)))
  else if (Formatter_style self =? "{")%string
  then builtin (str_format (Formatter_fmt self) [] (LogRecord_dict R))
  else raise (Raised (StyleNotSupported (Formatter_style self))).

End Logging.

(** ** Notions used in the statements *)

(** The threshold in the words of the specification: the object's own
    level if it is set (nonzero), else the process-wide default. *)
Definition effective_threshold (own : Z) (st : State) : Z :=
  if decide (own = NOTSET) then _level st else own.

(** [quiet Q st st']: from [st] to [st'] the globals, the loggers and the
    sizes of the heaps are unchanged, and the events added all satisfy [Q]. *)
Definition quiet (Q : Event -> Prop) (st st' : State) : Prop :=
  _level_dict st' = _level_dict st /\ _level st' = _level st /\
  _loggers st' = _loggers st /\ root st' = root st /\
  heap_loggers st' = heap_loggers st /\
  length (heap_handlers st') = length (heap_handlers st) /\
  length (heap_records st') = length (heap_records st) /\
  utime_time st' = utime_time st /\ sys_exc_value st' = sys_exc_value st /\
  exists evs, trace st' = trace st ++ evs /\ Forall Q evs.

Definition runs_quiet (Q : Event -> Prop) {A} (m : M A) : Prop :=
  forall st, quiet Q st (snd (m st)).

(** [raises_only P m]: whatever [m] raises satisfies [P]. *)
Definition raises_only (P : exn -> Prop) {A} (m : M A) : Prop :=
  forall st e, fst (m st) = Raise e -> P e.

Definition is_handle (ev : Event) : Prop :=
  match ev with
  | EvHandle _ _ => True
  | _ => False
  end.

Definition not_handle (ev : Event) : Prop := ~ is_handle ev.

(** The handlers that received a record, in the order of the calls. *)
Fixpoint handled (evs : list Event) : list loc :=
  match evs with
  | [] => []
  | EvHandle h _ :: rest => h :: handled rest
  | _ :: rest => handled rest
  end.

(** The record that [Logger.log] constructs in the state [st]: the
    [LogRecord(self.name, level, None, None, msg, args, None, None, None,
    module=module)] of line 48. *)
Definition logged_record {host : Host} (st : State) (name : string) (level : Z)
    (msg : string) (args : list value) (module : option string) : LogRecord :=
  mkLogRecord (utime_time st)
    (number_mul (number_sub (utime_time st) (number_int (utime_time st))) 1000)
    name level
    (match _level_dict st !! level with Some n => VStr n | None => VNone end)
    VNone VNone msg args VNone VNone VNone (str_or module "<?>") None None None.

(** [dispatch record hdlrs st out]: the calls [hdlr.handle(record)], made
    on the handlers of [hdlrs] one after the other from the state [st],
    end in [out].  When every call returns, [out] is the state the last
    call leaves; otherwise it is the error and the state of the first call
    that raises, and no handler after that one is called. *)
Inductive dispatch {host : Host} (record : loc)
    : list loc -> State -> Res unit * State -> Prop :=
| dispatch_done st : dispatch record [] st (Ok tt, st)
| dispatch_next hdlr rest st st' out :
    Handler_handle hdlr record
      (set_trace (fun t => t ++ [EvHandle hdlr record]) st) = (Ok tt, st') ->
    dispatch record rest st' out ->
    dispatch record (hdlr :: rest) st out
| dispatch_raise hdlr rest st e st' :
    Handler_handle hdlr record
      (set_trace (fun t => t ++ [EvHandle hdlr record]) st) = (Raise e, st') ->
    dispatch record (hdlr :: rest) st (Raise e, st').

(** [keeps st st']: from [st] to [st'] the global [root] is the same,
    every registered name still denotes the same logger, and every logger
    object is still there under its name. *)
Definition keeps (st st' : State) : Prop :=
  root st' = root st /\
  (forall n l, _loggers st !! n = Some l -> _loggers st' !! n = Some l) /\
  (forall l L, heap_loggers st !! l = Some L ->
     exists L', heap_loggers st' !! l = Some L' /\ Logger_name L' = Logger_name L).

Definition runs_keeps {A} (m : M A) : Prop := forall st, keeps st (snd (m st)).

Definition style_error (e : exn) : Prop :=
  match e with
  | Raised (StyleNotSupported _) => True
  | _ => False
  end.

(** ** A small host

    An implementation of the built-ins on the fragment the concrete runs
    below use: [%s], [%d], [%%] and [%(key)] directives, [{field}]
    replacement fields, strings, integers and [None]; its floats are
    exact.  What lies outside the fragment is answered with
    [beyond_small_host]. *)

Definition beyond_small_host {A} : builtin_result A :=
  Fails "NotImplementedError" "beyond the small host".

Definition decimal (z : Z) : string :=
  DecimalString.NilZero.string_of_int (Z.to_int z).

(** One converted argument. *)
Definition small_convert (c : ascii) (v : value) : builtin_result string :=
  if (c =? "s")%char then
    match v with
    | VStr s => Returns s
    | VInt z => Returns (decimal z)
    | VNone => Returns "None"
    | _ => beyond_small_host
    end
  else if (c =? "d")%char then
    match v with
    | VInt z => Returns (decimal z)
    | VStr _ | VNone => Fails "TypeError" "%d format: a number is required"
    | _ => beyond_small_host
    end
  else beyond_small_host.

Fixpoint assoc (key : string) (d : list (string * value)) : option value :=
  match d with
  | [] => None
  | (k, v) :: rest => if (k =? key)%string then Some v else assoc key rest
  end.

Inductive mod_mode :=
| MText                       (* copying literal text *)
| MPercent                    (* just after a [%] *)
| MKey (key : string)         (* inside [%(...] *)
| MKeyed (v : value).         (* after [%(key)], before the conversion type *)

Fixpoint small_mod (mode : mod_mode) (s : string) (args : list value)
    (dict : option (list (string * value))) (out : string) : builtin_result string :=
  match s with
  | EmptyString =>
      match mode with
      | MText =>
          match args, dict with
          | _ :: _, None =>
              Fails "TypeError" "not all arguments converted during string formatting"
          | _, _ => Returns out
          end
      | MKey _ => Fails "ValueError" "incomplete format key"
      | _ => Fails "ValueError" "incomplete format"
      end
  | String c rest =>
      match mode with
      | MText =>
          if (c =? "%")%char then small_mod MPercent rest args dict out
          else small_mod MText rest args dict (out +:+ String c EmptyString)
      | MPercent =>
          if (c =? "%")%char then small_mod MText rest args dict (out +:+ "%")
          else if (c =? "(")%char then
            match dict with
            | None => Fails "TypeError" "format requires a mapping"
            | Some _ => small_mod (MKey EmptyString) rest args dict out
            end
          else if is_conversion_type c then
            match args with
            | [] =>
                match dict with
                | None => Fails "TypeError" "not enough arguments for format string"
                | Some _ => beyond_small_host     (* the mapping itself is converted *)
                end
            | a :: args' =>
                match small_convert c a with
                | Returns t => small_mod MText rest args' dict (out +:+ t)
                | Fails cls detail => Fails cls detail
                end
            end
          else beyond_small_host
      | MKey key =>
          if (c =? ")")%char then
            match assoc key (default [] dict) with
            | None => Fails "KeyError" key
            | Some v => small_mod (MKeyed v) rest args dict out
            end
          else small_mod (MKey (key +:+ String c EmptyString)) rest args dict out
      | MKeyed v =>
          match small_convert c v with
          | Returns t => small_mod MText rest args dict (out +:+ t)
          | Fails cls detail => Fails cls detail
          end
      end
  end.

Definition small_str_mod (s : string) (x : operand) : builtin_result string :=
  match x with
  | OTuple items => small_mod MText s items None EmptyString
  | ODict d => small_mod MText s [] (Some d) EmptyString
  | OSingle v => small_mod MText s [v] None EmptyString
  end.

Definition is_digit (c : ascii) : bool :=
  str_in (String c EmptyString) "0123456789".

Fixpoint all_digits (s : string) : bool :=
  match s with
  | EmptyString => true
  | String c rest => is_digit c && all_digits rest
  end.

Fixpoint digits_value (s : string) (acc : nat) : nat :=
  match s with
  | EmptyString => acc
  | String c rest => digits_value rest (10 * acc + (nat_of_ascii c - 48))%nat
  end.

Definition small_field (field : string) (args : list value)
    (kwargs : list (string * value)) : builtin_result string :=
  let found :=
    match field with
    | EmptyString => None
    | _ => if all_digits field
           then Some (args !! digits_value field 0%nat,
                      ("IndexError", "tuple index out of range"))
           else Some (assoc field kwargs, ("KeyError", field))
    end in
  match found with
  | None => beyond_small_host
  | Some (None, (cls, detail)) => Fails cls detail
  | Some (Some v, _) => small_convert "s" v
  end.

Inductive format_mode :=
| FText
| FField (field : string).

Fixpoint small_format (mode : format_mode) (s : string) (args : list value)
    (kwargs : list (string * value)) (out : string) : builtin_result string :=
  match s with
  | EmptyString =>
      match mode with
      | FText => Returns out
      | FField _ => Fails "ValueError" "expected '}' before end of string"
      end
  | String c rest =>
      match mode with
      | FText =>
          if (c =? "{")%char then small_format (FField EmptyString) rest args kwargs out
          else if (c =? "}")%char then beyond_small_host
          else small_format FText rest args kwargs (out +:+ String c EmptyString)
      | FField field =>
          if (c =? "}")%char then
            match small_field field args kwargs with
            | Returns t => small_format FText rest args kwargs (out +:+ t)
            | Fails cls detail => Fails cls detail
            end
          else if str_in (String c EmptyString) "{!:.[]" then beyond_small_host
          else small_format (FField (field +:+ String c EmptyString)) rest args kwargs out
      end
  end.

(** Whole seconds since 2000-01-01 to [(year, month, mday, hour, minute,
    second, weekday, yearday)], on the first day of the epoch only. *)
Definition small_localtime (t : number) : builtin_result (list value) :=
  match t with
  | NInt t =>
      if (0 <=? t) && (t <? 86400)
      then Returns [VInt 2000; VInt 1; VInt 1; VInt (t / 3600); VInt (t / 60 mod 60);
               VInt (t mod 60); VInt 5; VInt 1]
      else beyond_small_host
  | NFloat _ => beyond_small_host
  end.

Definition small_host : Host := {|
  str_mod := small_str_mod;
  str_format := fun s args kwargs => small_format FText s args kwargs EmptyString;
  utime_localtime := small_localtime;
  sys_print_exception := fun _ => beyond_small_host;
  open_file := fun _ _ => Returns tt;
  sink_write := fun _ _ => Returns tt;
  float_round := Qred
|}.

(** ** Concrete runs on the small host *)

Section Runs.
#[local] Existing Instance small_host.

(** The state right after [import logging]. *)
Definition start : State := imported 0 VNone.

(** [svc = getLogger("svc"); svc.addHandler(Handler());
    svc.addHandler(StreamHandler())]: logger 1 with handlers 1 and 2. *)
Definition two_handlers : State :=
  snd ((svc <- getLogger (Some "svc") ;;
        h1 <- Handler_init BaseHandler None NOTSET ;;
        h2 <- StreamHandler_init None NOTSET None ;;
        Logger_addHandler svc h1 ;;
        Logger_addHandler svc h2) start).

(** [Formatter("%(asctime)s %(message)s")] *)
Definition timed_formatter : Formatter :=
  mkFormatter "%(asctime)s %(message)s" "{0}-{1}-{2} {3}:{4}:{5}"
              small_localtime "%" Formatter_formatException.



(** A record [LogRecord("svc", INFO, None, None, "%d items", (), None)]
    at location 0. *)
Definition missing_argument : State :=
  snd (LogRecord_init "svc" INFO VNone VNone "%d items" [] VNone VNone VNone None start).

(** [basicConfig(format="%(levelname)s:%(message)s")] *)
Definition level_shown : State :=
  snd (basicConfig INFO None None (Some "%(levelname)s:%(message)s") "%" start).

(** A formatter of a subclass whose [formatException] returns a string. *)
Definition tracing_formatter : Formatter :=
  mkFormatter "%(message)s" "{0}-{1}-{2} {3}:{4}:{5}" small_localtime "%"
              (fun _ => Ok "Traceback: boom").

(** A record [LogRecord("svc", ERROR, None, None, "failed", (), exc)] at
    location 0, [exc] being some exception information. *)
Definition with_exc_info : State :=
  snd (LogRecord_init "svc" ERROR VNone VNone "failed" [] (VObj 1) VNone VNone None start).

End Runs.

(** ** Notions used in the further properties *)

(** [runs R m]: every run of [m] takes a state to one related to it by [R]. *)
Definition runs (R : State -> State -> Prop) {A} (m : M A) : Prop :=
  forall st, R st (snd (m st)).

(** A record as [LogRecord.__init__] left it: the attributes that only
    [Formatter.format] assigns are taken away. *)
Definition as_constructed (R : LogRecord) : LogRecord :=
  mkLogRecord (LogRecord_created R) (LogRecord_msecs R) (LogRecord_name R)
    (LogRecord_levelno R) (LogRecord_levelname R) (LogRecord_pathname R)
    (LogRecord_lineno R) (LogRecord_msg R) (LogRecord_args R)
    (LogRecord_exc_info R) (LogRecord_func R) (LogRecord_sinfo R)
    (LogRecord_module R) None None None.

(** [only_record record st st']: from [st] to [st'] nothing has changed but
    the event log and, in the one record at [record], the attributes that
    [format] assigns. *)
Definition only_record (record : loc) (st st' : State) : Prop :=
  _level_dict st' = _level_dict st /\ _level st' = _level st /\
  _loggers st' = _loggers st /\ root st' = root st /\
  heap_loggers st' = heap_loggers st /\ heap_handlers st' = heap_handlers st /\
  utime_time st' = utime_time st /\ sys_exc_value st' = sys_exc_value st /\
  length (heap_records st') = length (heap_records st) /\
  (forall i, i <> record -> heap_records st' !! i = heap_records st !! i) /\
  (forall R, heap_records st !! record = Some R ->
     exists R', heap_records st' !! record = Some R' /\
                as_constructed R' = as_constructed R).

(** [delivery record st st']: as [only_record], except that file handlers
    may have been opened. *)
Definition delivery (record : loc) (st st' : State) : Prop :=
  _level_dict st' = _level_dict st /\ _level st' = _level st /\
  _loggers st' = _loggers st /\ root st' = root st /\
  heap_loggers st' = heap_loggers st /\
  utime_time st' = utime_time st /\ sys_exc_value st' = sys_exc_value st /\
  length (heap_handlers st') = length (heap_handlers st) /\
  (forall h H, heap_handlers st !! h = Some H ->
     exists H', heap_handlers st' !! h = Some H' /\ (H' = H \/ H' = mark_open H)) /\
  length (heap_records st') = length (heap_records st) /\
  (forall i, i <> record -> heap_records st' !! i = heap_records st !! i) /\
  (forall R, heap_records st !! record = Some R ->
     exists R', heap_records st' !! record = Some R' /\
                as_constructed R' = as_constructed R).

(** [registry_ok st]: every registered name denotes an existing logger
    that carries this name, and the global [root] is the logger registered
    as root, with a handler list. *)
Definition registry_ok (st : State) : Prop :=
  (forall n l, _loggers st !! n = Some l ->
     exists L, heap_loggers st !! l = Some L /\ Logger_name L = n) /\
  (exists r L, root st = Some r /\ _loggers st !! "root" = Some r /\
               heap_loggers st !! r = Some L /\ Logger_handlers L <> None).

Definition ok_step (st st' : State) : Prop := registry_ok st -> registry_ok st'.

(** The last step of [Formatter.format]: the format string applied to
    the attributes of the record, in the configured style. *)
Definition rendered {host : Host} (self : Formatter) (R : LogRecord) : Res string :=
  if (Formatter_style self =? "%")%string
  then of_builtin (str_mod (Formatter_fmt self) (ODict (LogRecord_dict R)))
  else if (Formatter_style self =? "{")%string
  then of_builtin (str_format (Formatter_fmt self) [] (LogRecord_dict R))
  else Raise (Raised (StyleNotSupported (Formatter_style self))).

(** Events that are not the opening of a file. *)
Definition not_open (ev : Event) : Prop :=
  match ev with
  | EvOpen _ _ => False
  | _ => True
  end.

(** ** More concrete runs on the small host *)

Section MoreRuns.
#[local] Existing Instance small_host.

(** [root.setLevel(DEBUG)] after import. *)
Definition root_at_debug : State := snd (Logger_setLevel 0%nat DEBUG start).

(** [FileHandler("app.log", delay=True)], handler 1, and a record
    [LogRecord("svc", INFO, None, None, "up", (), None)], record 0. *)
Definition delayed_file : State :=
  snd ((FileHandler_init "app.log" None NOTSET "a" VNone true ;;
        LogRecord_init "svc" INFO VNone VNone "up" [] VNone VNone VNone None) start).


End MoreRuns.

(** The small host with a [sys.print_exception] that writes [text] for
    every exception. *)
Definition printing_host (text : string) : Host := {|
  str_mod := small_str_mod;
  str_format := fun s args kwargs => small_format FText s args kwargs EmptyString;
  utime_localtime := small_localtime;
  sys_print_exception := fun _ => Returns text;
  open_file := fun _ _ => Returns tt;
  sink_write := fun _ _ => Returns tt;
  float_round := Qred
|}.

(** What [sys.print_exception] writes for a [KeyError("%s")] raised at the
    prompt. *)
Definition key_error_traceback : string :=
  "Traceback (most recent call last):" +:+ newline +:+
  "  File <stdin>, line 1, in <module>" +:+ newline +:+
  "KeyError: %s" +:+ newline.

(** * Properties *)

(** ** Reasoning about computations *)

Lemma bind_Ok {A B} (m : M A) (k : A -> M B) st a st' :
  m st = (Ok a, st') -> bind m k st = k a st'.
Proof. intros E. unfold bind. now rewrite E. Qed.

Lemma bind_Raise {A B} (m : M A) (k : A -> M B) st e st' :
  m st = (Raise e, st') -> bind m k st = (Raise e, st').
Proof. intros E. unfold bind. now rewrite E. Qed.

Lemma deref_Some {A} (heap : State -> list A) what l st a :
  heap st !! l = Some a -> deref heap what l st = (Ok a, st).
Proof. intros E. unfold deref. now rewrite E. Qed.

Lemma bind_the_logger {B} l (k : Logger -> M B) st L :
  heap_loggers st !! l = Some L -> bind (the_logger l) k st = k L st.
Proof. intros E. apply bind_Ok. now apply deref_Some. Qed.

Lemma bind_the_handler {B} l (k : Handler -> M B) st H :
  heap_handlers st !! l = Some H -> bind (the_handler l) k st = k H st.
Proof. intros E. apply bind_Ok. now apply deref_Some. Qed.

Lemma bind_the_record {B} l (k : LogRecord -> M B) st R :
  heap_records st !! l = Some R -> bind (the_record l) k st = k R st.
Proof. intros E. apply bind_Ok. now apply deref_Some. Qed.

Lemma int_or_threshold own st : int_or own (_level st) = effective_threshold own st.
Proof.
  unfold int_or, effective_threshold, NOTSET.
  destruct (Z.eqb_spec own 0); case_decide; congruence.
Qed.

Lemma quiet_refl Q st : quiet Q st st.
Proof.
  unfold quiet. repeat split; try reflexivity.
  exists []. split; [now rewrite app_nil_r | constructor].
Qed.

Lemma quiet_trans Q st1 st2 st3 : quiet Q st1 st2 -> quiet Q st2 st3 -> quiet Q st1 st3.
Proof.
  unfold quiet.
  intros (A1 & A2 & A3 & A4 & A5 & A6 & A7 & A8 & A9 & evs1 & T1 & F1)
         (B1 & B2 & B3 & B4 & B5 & B6 & B7 & B8 & B9 & evs2 & T2 & F2).
  repeat split; try congruence.
  exists (evs1 ++ evs2). split.
  - rewrite T2, T1. now rewrite app_assoc.
  - now apply Forall_app.
Qed.

Lemma runs_quiet_ret Q {A} (a : A) : runs_quiet Q (ret a).
Proof. intros st. apply quiet_refl. Qed.

Lemma runs_quiet_raise Q {A} e : runs_quiet Q (@raise A e).
Proof. intros st. apply quiet_refl. Qed.

Lemma runs_quiet_lift Q {A} (r : Res A) : runs_quiet Q (lift r).
Proof. intros st. apply quiet_refl. Qed.

Lemma runs_quiet_builtin Q {A} (r : builtin_result A) : runs_quiet Q (builtin r).
Proof. intros st. apply quiet_refl. Qed.

Lemma runs_quiet_get Q : runs_quiet Q get.
Proof. intros st. apply quiet_refl. Qed.

Lemma runs_quiet_bind Q {A B} (m : M A) (k : A -> M B) :
  runs_quiet Q m -> (forall a, runs_quiet Q (k a)) -> runs_quiet Q (bind m k).
Proof.
  intros Hm Hk st. unfold bind.
  specialize (Hm st). destruct (m st) as [[a | e] st1]; simpl in *.
  - eapply quiet_trans; [exact Hm | apply Hk].
  - exact Hm.
Qed.

Lemma runs_quiet_tell (Q : Event -> Prop) ev : Q ev -> runs_quiet Q (tell ev).
Proof.
  intros HQ st. unfold tell, modify, quiet. simpl.
  repeat split; try reflexivity.
  exists [ev]. split; [reflexivity | now repeat constructor].
Qed.

Lemma runs_quiet_deref Q {A} (heap : State -> list A) what l :
  runs_quiet Q (deref heap what l).
Proof. intros st. unfold deref. destruct (heap st !! l); apply quiet_refl. Qed.

Lemma runs_quiet_getattr Q cls attr v : runs_quiet Q (getattr cls attr v).
Proof. destruct v; [apply runs_quiet_ret | apply runs_quiet_raise]. Qed.

Lemma runs_quiet_update_record Q l f : runs_quiet Q (update_record l f).
Proof.
  intros st. unfold update_record, the_record, bind, deref, modify.
  destruct (heap_records st !! l); simpl; [| apply quiet_refl].
  unfold quiet. simpl. rewrite length_insert.
  repeat split; try reflexivity.
  exists []. split; [now rewrite app_nil_r | constructor].
Qed.

Lemma runs_quiet_update_handler Q l f : runs_quiet Q (update_handler l f).
Proof.
  intros st. unfold update_handler, the_handler, bind, deref, modify.
  destruct (heap_handlers st !! l); simpl; [| apply quiet_refl].
  unfold quiet. simpl. rewrite length_insert.
  repeat split; try reflexivity.
  exists []. split; [now rewrite app_nil_r | constructor].
Qed.

Lemma runs_quiet_the_record Q l : runs_quiet Q (the_record l).
Proof. apply runs_quiet_deref. Qed.

Lemma runs_quiet_the_handler Q l : runs_quiet Q (the_handler l).
Proof. apply runs_quiet_deref. Qed.

Lemma runs_quiet_the_logger Q l : runs_quiet Q (the_logger l).
Proof. apply runs_quiet_deref. Qed.

Create HintDb quiet.
#[export] Hint Resolve runs_quiet_ret runs_quiet_raise runs_quiet_lift runs_quiet_get
  runs_quiet_builtin
  runs_quiet_the_record runs_quiet_the_handler runs_quiet_the_logger
  runs_quiet_getattr runs_quiet_update_record runs_quiet_update_handler
  runs_quiet_tell : quiet.

(** Splits a computation along its binds and branches. *)
Ltac quiet_steps :=
  repeat first
    [ solve [auto with quiet]
    | match goal with
      | |- runs_quiet _ (bind _ _) => apply runs_quiet_bind; [| intros ?]
      | |- runs_quiet _ (if ?b then _ else _) => destruct b
      | |- runs_quiet _ (match ?x with _ => _ end) => destruct x
      end ].

Lemma raises_only_ret P {A} (a : A) : raises_only P (ret a).
Proof. intros st e E. discriminate. Qed.

Lemma raises_only_get P : raises_only P get.
Proof. intros st e E. discriminate. Qed.

Lemma raises_only_tell P ev : raises_only P (tell ev).
Proof. intros st e E. discriminate. Qed.

Lemma raises_only_raise (P : exn -> Prop) {A} e : P e -> raises_only P (@raise A e).
Proof. intros HP st e' E. simpl in E. now inversion E; subst. Qed.

Lemma raises_only_builtin (P : exn -> Prop) {A} (r : builtin_result A) :
  (forall cls detail, P (Builtin cls detail)) -> raises_only P (builtin r).
Proof. intros HP st e E. destruct r; simpl in E; inversion E; subst. apply HP. Qed.

Lemma raises_only_bind P {A B} (m : M A) (k : A -> M B) :
  raises_only P m -> (forall a, raises_only P (k a)) -> raises_only P (bind m k).
Proof.
  intros Hm Hk st e. unfold bind.
  specialize (Hm st). destruct (m st) as [[a | e'] st1]; simpl in *.
  - apply Hk.
  - intros E. apply Hm. now inversion E.
Qed.

Lemma raises_only_deref (P : exn -> Prop) {A} (heap : State -> list A) what l :
  (forall cls detail, P (Builtin cls detail)) -> raises_only P (deref heap what l).
Proof.
  intros HP st e. unfold deref.
  destruct (heap st !! l); simpl; intros E; inversion E; subst. apply HP.
Qed.

Lemma raises_only_getattr (P : exn -> Prop) cls attr v :
  (forall cls detail, P (Builtin cls detail)) -> raises_only P (getattr cls attr v).
Proof.
  intros HP. destruct v; [apply raises_only_ret | now apply raises_only_raise].
Qed.

Lemma raises_only_update_record (P : exn -> Prop) l f :
  (forall cls detail, P (Builtin cls detail)) -> raises_only P (update_record l f).
Proof.
  intros HP. unfold update_record, the_record.
  apply raises_only_bind; [now apply raises_only_deref |].
  intros R st e E. discriminate.
Qed.

Section Pipeline.
Context {host : Host}.

Lemma Formatter_formatTime_quiet Q self record datefmt :
  (forall t, Q (EvConverter t)) ->
  runs_quiet Q (Formatter_formatTime self record datefmt).
Proof. intros HQ. unfold Formatter_formatTime. quiet_steps. Qed.

Lemma Formatter_format_quiet Q self record :
  (forall t, Q (EvConverter t)) ->
  runs_quiet Q (Formatter_format self record).
Proof.
  intros HQ. unfold Formatter_format.
  quiet_steps. now apply Formatter_formatTime_quiet.
Qed.

Lemma write_quiet k text : runs_quiet not_handle (write k text).
Proof. unfold write. quiet_steps. apply runs_quiet_tell. now intros []. Qed.

Lemma open_into_quiet self filename mode :
  runs_quiet not_handle (open_into self filename mode).
Proof. unfold open_into. quiet_steps. apply runs_quiet_tell. now intros []. Qed.

Lemma Handler_emit_quiet self record : runs_quiet not_handle (Handler_emit self record).
Proof.
  assert (HQ : forall t, not_handle (EvConverter t)) by now intros t [].
  unfold Handler_emit.
  quiet_steps;
    first [ now apply Formatter_format_quiet | apply write_quiet
          | apply open_into_quiet | apply runs_quiet_tell; now intros [] ].
Qed.

Lemma Handler_handle_quiet self record :
  runs_quiet not_handle (Handler_handle self record).
Proof.
  unfold Handler_handle.
  quiet_steps; first [ apply Handler_emit_quiet | apply runs_quiet_tell; now intros [] ].
Qed.

Lemma handled_app evs1 evs2 : handled (evs1 ++ evs2) = handled evs1 ++ handled evs2.
Proof.
  induction evs1 as [| ev evs1 IH]; simpl; [reflexivity |].
  destruct ev; simpl; now rewrite ?IH.
Qed.

Lemma handled_not_handle evs : Forall not_handle evs -> handled evs = [].
Proof.
  induction 1 as [| ev evs Hev _ IH]; simpl; [reflexivity |].
  destruct ev; try exact IH. now destruct Hev.
Qed.

Lemma for_hdlr_cons hdlr rest record st :
  for_hdlr (hdlr :: rest) record st =
  match Handler_handle hdlr record (set_trace (fun t => t ++ [EvHandle hdlr record]) st) with
  | (Ok _, st2) => for_hdlr rest record st2
  | (Raise e, st2) => (Raise e, st2)
  end.
Proof. reflexivity. Qed.

(** What the loop over the handlers leaves in the event log: the handlers
    up to and including the first whose [handle] raises, all of them when
    none does. *)
Lemma for_hdlr_handled hdlrs record st :
  quiet (fun _ => True) st (snd (for_hdlr hdlrs record st)) /\
  exists evs, trace (snd (for_hdlr hdlrs record st)) = trace st ++ evs /\
    match fst (for_hdlr hdlrs record st) with
    | Ok _ => handled evs = hdlrs
    | Raise e =>
        exists k hdlr st_k,
          hdlrs !! k = Some hdlr /\ handled evs = take (S k) hdlrs /\
          fst (Handler_handle hdlr record st_k) = Raise e
    end.
Proof.
  revert st. induction hdlrs as [| hdlr rest IH]; intros st.
  - simpl. split; [apply quiet_refl |]. exists []. now rewrite app_nil_r.
  - rewrite for_hdlr_cons.
    set (st1 := set_trace (fun t => t ++ [EvHandle hdlr record]) st).
    assert (Q1 : quiet (fun _ => True) st st1).
    { unfold quiet, st1. simpl. repeat split; try reflexivity.
      exists [EvHandle hdlr record]. split; [reflexivity | now repeat constructor]. }
    pose proof (Handler_handle_quiet hdlr record st1) as Hq.
    destruct (Handler_handle hdlr record st1) as [[[] | e] st2] eqn:E; simpl in Hq.
    + destruct (IH st2) as (Q3 & evs3 & T3 & H3).
      destruct Hq as (A1 & A2 & A3 & A4 & A5 & A6 & A7 & A8 & A9 & evs2 & T2 & F2).
      split.
      * eapply quiet_trans; [exact Q1 |]. eapply quiet_trans; [| exact Q3].
        unfold quiet. repeat split; try assumption.
        exists evs2. split; [assumption |]. clear. induction evs2; now constructor.
      * exists ([EvHandle hdlr record] ++ evs2 ++ evs3). split.
        { rewrite T3, T2. unfold st1. simpl. now rewrite <- !app_assoc. }
        rewrite !handled_app, (handled_not_handle _ F2). simpl.
        destruct (fst (for_hdlr rest record st2)).
        -- now rewrite H3.
        -- destruct H3 as (k & h & st_k & L & Hk & R).
           exists (S k), h, st_k. simpl. rewrite Hk. auto.
    + destruct Hq as (A1 & A2 & A3 & A4 & A5 & A6 & A7 & A8 & A9 & evs2 & T2 & F2).
      split.
      * eapply quiet_trans; [exact Q1 |].
        unfold quiet. repeat split; try assumption.
        exists evs2. split; [assumption |]. clear. induction evs2; now constructor.
      * exists ([EvHandle hdlr record] ++ evs2). simpl. split.
        { rewrite T2. unfold st1. simpl. now rewrite <- !app_assoc. }
        rewrite (handled_not_handle _ F2).
        exists 0%nat, hdlr, st1. simpl. rewrite E. rewrite take_0. auto.
Qed.

(** The loop is the sequence of the [handle] calls. *)
Lemma for_hdlr_dispatch hdlrs record st :
  dispatch record hdlrs st (for_hdlr hdlrs record st).
Proof.
  revert st. induction hdlrs as [| hdlr rest IH]; intros st; [constructor |].
  rewrite for_hdlr_cons.
  destruct (Handler_handle hdlr record
              (set_trace (fun t => t ++ [EvHandle hdlr record]) st))
    as [[[] | e] st2] eqn:E.
  - eapply dispatch_next; [exact E | apply IH].
  - now apply dispatch_raise.
Qed.

(** Once the calls on [before] have returned, the loop goes on with the
    handlers that follow. *)
Lemma dispatch_for_hdlr before rest record st st_k :
  dispatch record before st (Ok tt, st_k) ->
  for_hdlr (before ++ rest) record st = for_hdlr rest record st_k.
Proof.
  revert st. induction before as [| hdlr before IH]; intros st D.
  - inversion D; subst. reflexivity.
  - inversion D as [| hdlr' rest' st0 st1 out E D' |]; subst.
    change ((hdlr :: before) ++ rest) with (hdlr :: (before ++ rest)).
    rewrite for_hdlr_cons, E. now apply IH.
Qed.

(** The calls that have returned, as the event log shows them. *)
Lemma dispatch_handled hdlrs record st st' :
  dispatch record hdlrs st (Ok tt, st') ->
  exists evs, trace st' = trace st ++ evs /\ handled evs = hdlrs.
Proof.
  revert st. induction hdlrs as [| hdlr rest IH]; intros st D.
  - inversion D; subst. exists []. now rewrite app_nil_r.
  - inversion D as [| hdlr' rest' st0 st1 out E D' |]; subst.
    destruct (IH _ D') as (evs & T & Hh).
    pose proof (Handler_handle_quiet hdlr record
                  (set_trace (fun t => t ++ [EvHandle hdlr record]) st)) as Hq.
    rewrite E in Hq. cbn [snd] in Hq.
    destruct Hq as (_ & _ & _ & _ & _ & _ & _ & _ & _ & evs2 & T2 & F2).
    exists ([EvHandle hdlr record] ++ evs2 ++ evs). split.
    + rewrite T, T2. simpl. now rewrite <- !app_assoc.
    + rewrite !handled_app, (handled_not_handle _ F2), Hh. reflexivity.
Qed.

Lemma Handler_handle_accepted self record H R st :
  heap_handlers st !! self = Some H ->
  heap_records st !! record = Some R ->
  effective_threshold (Handler_level H) st <= LogRecord_levelno R ->
  Handler_handle self record st =
  Handler_emit self record (set_trace (fun t => t ++ [EvEmit self record]) st).
Proof.
  intros EH ER Hge. unfold Handler_handle.
  rewrite (bind_the_handler _ _ _ _ EH), (bind_the_record _ _ _ _ ER).
  unfold bind at 1, get. rewrite int_or_threshold.
  destruct (Z.geb_spec (LogRecord_levelno R) (effective_threshold (Handler_level H) st));
    [reflexivity | lia].
Qed.

Lemma Logger_log_accepted self L level msg args module st :
  heap_loggers st !! self = Some L ->
  effective_threshold (Logger_level L) st <= level ->
  exists R,
    Logger_log self level msg args module st =
      for_hdlr (default [] (Logger_handlers L)) (length (heap_records st))
               (set_heap_records (fun h => h ++ [R]) st) /\
    LogRecord_levelno R = level /\ LogRecord_msg R = msg /\ LogRecord_args R = args.
Proof.
  intros EL Hge. eexists. split.
  - unfold Logger_log.
    rewrite (bind_the_logger _ _ _ _ EL).
    unfold bind at 1, get. rewrite int_or_threshold.
    destruct (Z.geb_spec level (effective_threshold (Logger_level L) st)); [| lia].
    unfold bind at 1. unfold LogRecord_init at 1, bind at 1, get, alloc_record.
    cbv beta iota.
    match goal with
    | |- bind _ _ ?s = _ => rewrite (bind_the_logger _ _ s L) by exact EL
    end.
    destruct (Logger_handlers L) as [[| hdlr rest] |]; reflexivity.
  - repeat split.
Qed.

(** An accepted [log] call constructs its record and runs the loop. *)
Lemma Logger_log_runs self L level msg args module st :
  heap_loggers st !! self = Some L ->
  effective_threshold (Logger_level L) st <= level ->
  Logger_log self level msg args module st =
  for_hdlr (default [] (Logger_handlers L)) (length (heap_records st))
    (set_heap_records
       (fun h => h ++ [logged_record st (Logger_name L) level msg args module]) st).
Proof.
  intros EL Hge. unfold Logger_log.
  rewrite (bind_the_logger _ _ _ _ EL).
  unfold bind at 1, get. rewrite int_or_threshold.
  destruct (Z.geb_spec level (effective_threshold (Logger_level L) st)); [| lia].
  unfold bind at 1. unfold LogRecord_init at 1, bind at 1, get, alloc_record.
  cbv beta iota.
  match goal with
  | |- bind _ _ ?s = _ => rewrite (bind_the_logger _ _ s L) by exact EL
  end.
  destruct (Logger_handlers L) as [[| hdlr rest] |]; reflexivity.
Qed.

End Pipeline.

Lemma lookup_snoc {A} (l : list A) (x : A) : (l ++ [x]) !! length l = Some x.
Proof. now apply list_lookup_middle. Qed.

Lemma insert_snoc {A} (l : list A) (x y : A) : <[length l := y]> (l ++ [x]) = l ++ [y].
Proof.
  rewrite insert_app_r_alt by lia. now rewrite Nat.sub_diag.
Qed.

Lemma update_handler_new st H f :
  update_handler (length (heap_handlers st)) f
                 (set_heap_handlers (fun h => h ++ [H]) st)
  = (Ok tt, set_heap_handlers (fun h => h ++ [f H]) st).
Proof.
  unfold update_handler.
  rewrite (bind_the_handler _ _ _ H) by apply lookup_snoc.
  unfold modify, set_heap_handlers. simpl. now rewrite insert_snoc.
Qed.

Lemma update_logger_new st L f :
  update_logger (length (heap_loggers st)) f
                (set_heap_loggers (fun h => h ++ [L]) st)
  = (Ok tt, set_heap_loggers (fun h => h ++ [f L]) st).
Proof.
  unfold update_logger.
  rewrite (bind_the_logger _ _ _ L) by apply lookup_snoc.
  unfold modify, set_heap_loggers. simpl. now rewrite insert_snoc.
Qed.

Section Claims.
Context {host : Host}.

Lemma getLogger_registered name st l :
  _loggers st !! default "root" name = Some l ->
  getLogger name st = (Ok l, st).
Proof.
  intros E. unfold getLogger, bind, get.
  destruct name as [n |]; simpl in E; now rewrite E.
Qed.

Lemma getLogger_new name st :
  _loggers st !! default "root" name = None ->
  let key := default "root" name in
  let l := length (heap_loggers st) in
  let is_root := (key =? "root")%string in
  getLogger name st =
  (Ok l,
   set_loggers (fun d => <[key := l]> d)
     (set_heap_loggers
        (fun h => h ++ [mkLogger key NOTSET
                          (if is_root then Some [length (heap_handlers st)] else None)])
        (set_heap_handlers
           (fun h => h ++ (if is_root then [default_handler] else [])) st))).
Proof.
  intros E key l is_root.
  assert (G : getLogger name st =
              bind (if is_root
                    then l <- Logger_init key ;;
                         sh <- StreamHandler_init None NOTSET None ;;
                         f <- lift (Formatter_init None None "%" None) ;;
                         Handler_setFormatter sh f ;;
                         Logger_addHandler l sh ;;
                         ret l
                    else Logger_init key)
                   (fun l => modify (set_loggers (fun d => <[key := l]> d)) ;; ret l) st).
  { unfold getLogger, get. unfold bind at 1.
    destruct name as [n |]; simpl in E; now rewrite E. }
  rewrite G. clear G. destruct is_root.
  - unfold bind at 1. unfold bind at 1.
    change (Logger_init key st)
      with (Ok l, set_heap_loggers (fun h => h ++ [mkLogger key NOTSET None]) st).
    cbv beta iota.
    set (st1 := set_heap_loggers (fun h => h ++ [mkLogger key NOTSET None]) st).
    unfold bind at 1.
    change (StreamHandler_init None NOTSET None st1)
      with (Ok (length (heap_handlers st)),
            set_heap_handlers (fun h => h ++ [default_handler]) st1).
    cbv beta iota.
    unfold bind at 1.
    change (lift (Formatter_init None None "%" None)
              (set_heap_handlers (fun h => h ++ [default_handler]) st1))
      with (Ok default_formatter, set_heap_handlers (fun h => h ++ [default_handler]) st1).
    cbv beta iota.
    unfold bind at 1. unfold Handler_setFormatter.
    change (length (heap_handlers st)) with (length (heap_handlers st1)) at 1.
    rewrite update_handler_new.
    unfold bind at 1. unfold Logger_addHandler.
    change (set_heap_handlers
              (fun h => h ++ [mkHandler default_formatter (Handler_level default_handler)
                                        (Handler_class default_handler)]) st1)
      with (set_heap_loggers (fun h => h ++ [mkLogger key NOTSET None])
              (set_heap_handlers (fun h => h ++ [default_handler]) st)).
    change l with (length (heap_loggers
                     (set_heap_handlers (fun h => h ++ [default_handler]) st))) at 1.
    rewrite update_logger_new.
    reflexivity.
  - unfold bind, modify, ret, Logger_init, alloc_logger. simpl.
    unfold set_loggers, set_heap_loggers, set_heap_handlers. simpl.
    now rewrite app_nil_r.
Qed.

(** C2. For every handler and record, [handle] calls [emit] if and only
    if the record's level is at least the handler's effective threshold
    (its own level if nonzero, else the process-wide default); below the
    threshold it does nothing.  No logger takes part in the decision. *)
Theorem Handler_handle_threshold (self record : loc) (H : Handler) (R : LogRecord)
    (st : State) :
  heap_handlers st !! self = Some H ->
  heap_records st !! record = Some R ->
  let thr := effective_threshold (Handler_level H) st in
  let out := Handler_handle self record st in
  (LogRecord_levelno R < thr -> out = (Ok tt, st)) /\
  (thr <= LogRecord_levelno R ->
     out = Handler_emit self record
             (set_trace (fun t => t ++ [EvEmit self record]) st)) /\
  ((exists evs, trace (snd out) = trace st ++ evs /\ In (EvEmit self record) evs)
     <-> thr <= LogRecord_levelno R).
Proof.
  intros EH ER thr out.
  assert (Hlow : LogRecord_levelno R < thr -> out = (Ok tt, st)).
  { intros Hlt. unfold out, Handler_handle.
    rewrite (bind_the_handler _ _ _ _ EH), (bind_the_record _ _ _ _ ER).
    unfold bind, get. rewrite int_or_threshold. fold thr.
    destruct (Z.geb_spec (LogRecord_levelno R) thr); [lia | reflexivity]. }
  assert (Hhigh : thr <= LogRecord_levelno R ->
            out = Handler_emit self record
                    (set_trace (fun t => t ++ [EvEmit self record]) st)).
  { intros Hge. unfold out, Handler_handle.
    rewrite (bind_the_handler _ _ _ _ EH), (bind_the_record _ _ _ _ ER).
    unfold bind at 1, get. rewrite int_or_threshold. fold thr.
    destruct (Z.geb_spec (LogRecord_levelno R) thr); [reflexivity | lia]. }
  split; [exact Hlow |]. split; [exact Hhigh |]. split.
  - intros (evs & T & Hin).
    destruct (Z.lt_ge_cases (LogRecord_levelno R) thr) as [Hlt | Hge]; [| exact Hge].
    rewrite (Hlow Hlt) in T. simpl in T.
    rewrite <- (app_nil_r (trace st)) in T at 1.
    apply app_inv_head in T. subst evs. destruct Hin.
  - intros Hge. rewrite (Hhigh Hge).
    destruct (Handler_emit_quiet self record
                (set_trace (fun t => t ++ [EvEmit self record]) st))
      as (_ & _ & _ & _ & _ & _ & _ & _ & _ & evs & T & _).
    exists ([EvEmit self record] ++ evs). split.
    + rewrite T. simpl. now rewrite <- app_assoc.
    + now left.
Qed.

(** C1. For every logger and integer severity, [log] constructs a
    LogRecord and dispatches it, calling [handle] on the attached handlers
    one after the other, if and only if the severity is at least the
    logger's effective threshold (its own level if nonzero, else the
    process-wide default); below the threshold no record is constructed,
    no handler is called and the state is left as it was.  [isEnabledFor]
    answers the same test. *)
Theorem Logger_log_threshold (self : loc) (L : Logger) (level : Z) (msg : string)
    (args : list value) (module : option string) (st : State) :
  heap_loggers st !! self = Some L ->
  let thr := effective_threshold (Logger_level L) st in
  let out := Logger_log self level msg args module st in
  Logger_isEnabledFor self level st = (Ok (thr <=? level), st) /\
  (level < thr -> out = (Ok tt, st)) /\
  (thr <= level ->
     let R := logged_record st (Logger_name L) level msg args module in
     let st1 := set_heap_records (fun h => h ++ [R]) st in
     heap_records st1 !! length (heap_records st) = Some R /\
     dispatch (length (heap_records st)) (default [] (Logger_handlers L)) st1 out /\
     out = for_hdlr (default [] (Logger_handlers L)) (length (heap_records st)) st1) /\
  (length (heap_records (snd out)) = S (length (heap_records st)) <-> thr <= level) /\
  (forall evs, trace (snd out) = trace st ++ evs ->
     (handled evs <> [] <->
      thr <= level /\ exists hdlr rest, Logger_handlers L = Some (hdlr :: rest))).
Proof.
  intros EL thr out.
  assert (Hlow : level < thr -> out = (Ok tt, st)).
  { intros Hlt. unfold out, Logger_log.
    rewrite (bind_the_logger _ _ _ _ EL).
    unfold bind, get. rewrite int_or_threshold. fold thr.
    destruct (Z.geb_spec level thr); [lia | reflexivity]. }
  set (R := logged_record st (Logger_name L) level msg args module).
  set (st1 := set_heap_records (fun h => h ++ [R]) st).
  assert (Hhigh : thr <= level ->
            out = for_hdlr (default [] (Logger_handlers L))
                           (length (heap_records st)) st1).
  { intros Hge. unfold out, Logger_log.
    rewrite (bind_the_logger _ _ _ _ EL).
    unfold bind at 1, get. rewrite int_or_threshold. fold thr.
    destruct (Z.geb_spec level thr); [| lia].
    assert (E1 : LogRecord_init (Logger_name L) level VNone VNone msg args
                   VNone VNone VNone module st = (Ok (length (heap_records st)), st1))
      by reflexivity.
    rewrite (bind_Ok _ _ _ _ _ E1).
    rewrite (bind_the_logger _ _ st1 L) by exact EL.
    destruct (Logger_handlers L) as [[| hdlr rest] |]; reflexivity. }
  pose proof (for_hdlr_handled (default [] (Logger_handlers L))
                (length (heap_records st)) st1) as (Q & evs1 & T1 & H1).
  split.
  { unfold Logger_isEnabledFor. rewrite (bind_the_logger _ _ _ _ EL).
    unfold bind, get, ret. rewrite int_or_threshold. fold thr.
    now rewrite Z.geb_leb. }
  split; [exact Hlow |]. split; [| split].
  - intros Hge. cbv zeta. fold R st1. split; [apply lookup_snoc |]. split.
    + rewrite (Hhigh Hge). apply for_hdlr_dispatch.
    + exact (Hhigh Hge).
  - split.
    + intros Hlen.
      destruct (Z.lt_ge_cases level thr) as [Hlt | Hge]; [| exact Hge].
      rewrite (Hlow Hlt) in Hlen. simpl in Hlen. lia.
    + intros Hge. rewrite (Hhigh Hge).
      destruct Q as (_ & _ & _ & _ & _ & _ & Q7 & _).
      rewrite Q7. unfold st1. simpl. rewrite length_app. simpl. lia.
  - intros evs T. split.
    + intros Hne.
      destruct (Z.lt_ge_cases level thr) as [Hlt | Hge].
      * rewrite (Hlow Hlt) in T. simpl in T.
        rewrite <- (app_nil_r (trace st)) in T at 1.
        apply app_inv_head in T. subst evs. now destruct Hne.
      * split; [exact Hge |].
        rewrite (Hhigh Hge), T1 in T. unfold st1 in T. simpl in T.
        apply app_inv_head in T. subst evs1.
        destruct (Logger_handlers L) as [[| hdlr rest] |]; eauto;
          simpl in H1; congruence.
    + intros (Hge & hdlr & rest & EH).
      rewrite (Hhigh Hge), T1 in T. unfold st1 in T. simpl in T.
      apply app_inv_head in T. subst evs1.
      rewrite EH in H1.
      change (default [] (Some (hdlr :: rest))) with (hdlr :: rest) in H1.
      destruct (fst (for_hdlr (hdlr :: rest) (length (heap_records st)) st1)).
      * now rewrite H1.
      * destruct H1 as (k & h & st_k & _ & Hk & _). now rewrite Hk.
Qed.

(** C3 (as amended). An accepted [log] call hands the record to the
    attached handlers in attachment order, up to and including the first
    one whose [handle] raises; that error leaves [log] and the handlers
    after it are not called.  When no handler raises, every attached
    handler receives the record. *)
Theorem Logger_log_fan_out (self : loc) (L : Logger) (hdlrs : list loc) (level : Z)
    (msg : string) (args : list value) (module : option string) (st : State) :
  heap_loggers st !! self = Some L ->
  Logger_handlers L = Some hdlrs ->
  effective_threshold (Logger_level L) st <= level ->
  let out := Logger_log self level msg args module st in
  let record := length (heap_records st) in
  let st1 := set_heap_records
               (fun h => h ++ [logged_record st (Logger_name L) level msg args module])
               st in
  dispatch record hdlrs st1 out /\
  (forall st',
     dispatch record hdlrs st1 (Ok tt, st') ->
     out = (Ok tt, st') /\
     exists evs, trace st' = trace st ++ evs /\ handled evs = hdlrs) /\
  (forall before hdlr after st_k e st',
     hdlrs = before ++ hdlr :: after ->
     dispatch record before st1 (Ok tt, st_k) ->
     Handler_handle hdlr record
       (set_trace (fun t => t ++ [EvHandle hdlr record]) st_k) = (Raise e, st') ->
     out = (Raise e, st') /\
     exists evs, trace st' = trace st ++ evs /\ handled evs = before ++ [hdlr]).
Proof.
  intros EL EH Hge out record st1.
  assert (E : out = for_hdlr hdlrs record st1).
  { unfold out. rewrite (Logger_log_runs self L level msg args module st EL Hge).
    now rewrite EH. }
  split; [rewrite E; apply for_hdlr_dispatch |]. split.
  - intros st' D. split.
    + rewrite E, <- (app_nil_r hdlrs). now rewrite (dispatch_for_hdlr _ [] _ _ _ D).
    + exact (dispatch_handled _ _ _ _ D).
  - intros before hdlr after st_k e st' -> D Hf. split.
    + rewrite E, (dispatch_for_hdlr _ (hdlr :: after) _ _ _ D), for_hdlr_cons.
      now rewrite Hf.
    + destruct (dispatch_handled _ _ _ _ D) as (evs & T & Hh).
      pose proof (Handler_handle_quiet hdlr record
                    (set_trace (fun t => t ++ [EvHandle hdlr record]) st_k)) as Hq.
      rewrite Hf in Hq. cbn [snd] in Hq.
      destruct Hq as (_ & _ & _ & _ & _ & _ & _ & _ & _ & evs2 & T2 & F2).
      exists (evs ++ [EvHandle hdlr record] ++ evs2). split.
      * rewrite T2. simpl. rewrite T. simpl. now rewrite <- !app_assoc.
      * rewrite !handled_app, (handled_not_handle _ F2), Hh. simpl.
        now rewrite ?app_nil_r.
Qed.

(** C4. [getLogger] is idempotent: it never fails, and a second call with
    the same name returns the same instance and changes nothing.  An
    absent name means the root logger.  A logger [getLogger] creates for
    the name root carries one [StreamHandler] on [sys.stderr] with the
    default [Formatter]; any other logger it creates has no handlers.
    After import the global [root] is that root logger. *)
Theorem getLogger_idempotent :
  (forall name st, exists l st',
     getLogger name st = (Ok l, st') /\ getLogger name st' = (Ok l, st')) /\
  (forall st, getLogger None st = getLogger (Some "root") st) /\
  (forall name st,
     let key := default "root" name in
     match _loggers st !! key with
     | Some l => getLogger name st = (Ok l, st)
     | None =>
         exists st',
           getLogger name st = (Ok (length (heap_loggers st)), st') /\
           _loggers st' = <[key := length (heap_loggers st)]> (_loggers st) /\
           heap_loggers st' =
             heap_loggers st ++
               [mkLogger key NOTSET
                  (if (key =? "root")%string
                   then Some [length (heap_handlers st)] else None)] /\
           heap_handlers st' =
             heap_handlers st ++
               (if (key =? "root")%string then [default_handler] else [])
     end) /\
  (forall now exc,
     root (imported now exc) = Some 0%nat /\
     getLogger None (imported now exc) = (Ok 0%nat, imported now exc) /\
     heap_loggers (imported now exc) = [mkLogger "root" NOTSET (Some [0%nat])] /\
     heap_handlers (imported now exc) = [default_handler]).
Proof.
  split; [| split; [| split]].
  - intros name st.
    destruct (_loggers st !! default "root" name) as [l |] eqn:E.
    + exists l, st. split; now apply getLogger_registered.
    + eexists _, _. split; [now apply getLogger_new |].
      apply getLogger_registered. simpl. apply lookup_insert_eq.
  - reflexivity.
  - intros name st key.
    destruct (_loggers st !! key) as [l |] eqn:E.
    + now apply getLogger_registered.
    + eexists. split; [now apply getLogger_new |]. now split.
  - intros now exc. repeat split.
Qed.

Lemma keeps_refl st : keeps st st.
Proof. repeat split; eauto. Qed.

Lemma keeps_trans st1 st2 st3 : keeps st1 st2 -> keeps st2 st3 -> keeps st1 st3.
Proof.
  intros (A1 & A2 & A3) (B1 & B2 & B3). repeat split.
  - congruence.
  - auto.
  - intros l L E. destruct (A3 _ _ E) as (L' & E' & N').
    destruct (B3 _ _ E') as (L'' & E'' & N''). exists L''. split; congruence.
Qed.

Lemma quiet_keeps Q st st' : quiet Q st st' -> keeps st st'.
Proof.
  intros (_ & _ & A3 & A4 & A5 & _). repeat split.
  - exact A4.
  - now rewrite A3.
  - rewrite A5. eauto.
Qed.

Lemma runs_quiet_keeps Q {A} (m : M A) : runs_quiet Q m -> runs_keeps m.
Proof. intros Hq st. eapply quiet_keeps, Hq. Qed.

Lemma runs_keeps_bind {A B} (m : M A) (k : A -> M B) :
  runs_keeps m -> (forall a, runs_keeps (k a)) -> runs_keeps (bind m k).
Proof.
  intros Hm Hk st. unfold bind.
  specialize (Hm st). destruct (m st) as [[a | e] st1]; simpl in *.
  - eapply keeps_trans; [exact Hm | apply Hk].
  - exact Hm.
Qed.

Lemma runs_keeps_ret {A} (a : A) : runs_keeps (ret a).
Proof. intros st. apply keeps_refl. Qed.

Lemma runs_keeps_modify f :
  (forall st, root (f st) = root st /\ _loggers (f st) = _loggers st /\
              heap_loggers (f st) = heap_loggers st) ->
  runs_keeps (modify f).
Proof.
  intros Hf st. unfold modify. simpl.
  destruct (Hf st) as (A1 & A2 & A3). repeat split.
  - exact A1.
  - now rewrite A2.
  - rewrite A3. eauto.
Qed.

Lemma runs_keeps_alloc_handler H : runs_keeps (alloc_handler H).
Proof. intros st. repeat split; eauto. Qed.

Lemma runs_keeps_alloc_record R : runs_keeps (alloc_record R).
Proof. intros st. repeat split; eauto. Qed.

Lemma runs_keeps_alloc_logger L : runs_keeps (alloc_logger L).
Proof.
  intros st. repeat split; auto.
  intros l L0 E. exists L0. split; [| reflexivity].
  simpl. now apply lookup_app_l_Some.
Qed.

Lemma runs_keeps_update_logger l f :
  (forall L, Logger_name (f L) = Logger_name L) -> runs_keeps (update_logger l f).
Proof.
  intros Hf st. unfold update_logger.
  destruct (heap_loggers st !! l) as [L |] eqn:E.
  - rewrite (bind_the_logger _ _ _ _ E). unfold modify. repeat split; auto.
    intros l0 L0 E0. simpl.
    destruct (decide (l = l0)) as [-> | N].
    + rewrite list_lookup_insert_eq by (eapply lookup_lt_Some; exact E).
      exists (f L). split; [reflexivity |]. rewrite Hf.
      pose proof (eq_trans (eq_sym E) E0) as X. now inversion X.
    + rewrite list_lookup_insert_ne by exact N. eauto.
  - unfold bind, the_logger, deref. rewrite E. apply keeps_refl.
Qed.

Lemma runs_keeps_getLogger name : runs_keeps (getLogger name).
Proof.
  intros st.
  destruct (_loggers st !! default "root" name) as [l |] eqn:E.
  - rewrite (getLogger_registered _ _ _ E). apply keeps_refl.
  - rewrite (getLogger_new _ _ E).
    unfold keeps, set_loggers, set_heap_loggers, set_heap_handlers.
    cbn [snd root _loggers heap_loggers]. repeat split; auto.
    + intros n l En. rewrite lookup_insert_ne; [exact En | congruence].
    + intros l L El. exists L. split; [| reflexivity]. now apply lookup_app_l_Some.
Qed.

Lemma runs_keeps_Handler_init class formatter level :
  runs_keeps (Handler_init class formatter level).
Proof.
  unfold Handler_init. apply runs_keeps_bind.
  - destruct formatter; intros st; apply keeps_refl.
  - intros f. apply runs_keeps_alloc_handler.
Qed.

Lemma runs_keeps_for_hdlr hdlrs record : runs_keeps (for_hdlr hdlrs record).
Proof.
  intros st. eapply quiet_keeps. apply for_hdlr_handled.
Qed.

Lemma runs_keeps_Logger_log self level msg args module :
  runs_keeps (Logger_log self level msg args module).
Proof.
  unfold Logger_log, LogRecord_init.
  apply runs_keeps_bind; [apply (runs_quiet_keeps (fun _ => True)); auto with quiet |].
  intros L. apply runs_keeps_bind; [intros st; apply keeps_refl |].
  intros st0. destruct (level >=? _); [| apply runs_keeps_ret].
  apply runs_keeps_bind.
  - apply runs_keeps_bind; [intros st; apply keeps_refl |].
    intros st1. apply runs_keeps_alloc_record.
  - intros record.
    apply runs_keeps_bind; [apply (runs_quiet_keeps (fun _ => True)); auto with quiet |].
    intros L'. destruct (Logger_handlers L') as [[| hdlr rest] |];
      first [apply runs_keeps_ret | apply runs_keeps_for_hdlr].
Qed.

Lemma runs_keeps_Logger_exc self e msg args module :
  runs_keeps (Logger_exc self e msg args module).
Proof.
  unfold Logger_exc. apply runs_keeps_bind; [intros st; apply keeps_refl |].
  intros buf. apply runs_keeps_Logger_log.
Qed.

Lemma runs_keeps_Logger_exception self msg args module :
  runs_keeps (Logger_exception self msg args module).
Proof.
  unfold Logger_exception. apply runs_keeps_bind; [intros st; apply keeps_refl |].
  intros st0. apply runs_keeps_Logger_exc.
Qed.

Lemma runs_keeps_Logger_addHandler self hdlr : runs_keeps (Logger_addHandler self hdlr).
Proof. unfold Logger_addHandler. now apply runs_keeps_update_logger. Qed.

Lemma runs_keeps_basicConfig level filename stream format style :
  runs_keeps (basicConfig level filename stream format style).
Proof.
  unfold basicConfig.
  apply runs_keeps_bind; [now apply runs_keeps_modify |]. intros _.
  apply runs_keeps_bind.
  { destruct filename as [[| c s] |]; unfold StreamHandler_init, FileHandler_init;
      try apply runs_keeps_Handler_init.
    apply runs_keeps_bind; [apply runs_keeps_Handler_init |]. intros h.
    apply runs_keeps_bind; [| intros _; apply runs_keeps_ret].
    apply (runs_quiet_keeps not_handle). apply open_into_quiet. }
  intros h. apply runs_keeps_bind; [intros st; apply keeps_refl |]. intros f.
  apply runs_keeps_bind;
    [apply (runs_quiet_keeps (fun _ => True)); unfold Handler_setFormatter;
     auto with quiet |].
  intros _. apply runs_keeps_bind; [intros st; apply keeps_refl |]. intros st0.
  destruct (root st0) as [r |]; [| intros st; apply keeps_refl].
  apply runs_keeps_bind; [apply (runs_quiet_keeps (fun _ => True)); auto with quiet |].
  intros R. destruct (Logger_handlers R); [| intros st; apply keeps_refl].
  apply runs_keeps_bind; [now apply runs_keeps_update_logger |].
  intros _. apply runs_keeps_Logger_addHandler.
Qed.

Lemma runs_keeps_run {A} (c : call A) : runs_keeps (run c).
Proof.
  destruct c; simpl;
    unfold info, debug, warning, error, critical, exception,
           Logger_info, Logger_debug, Logger_warning, Logger_error, Logger_critical;
    try (apply runs_keeps_bind; [apply runs_keeps_getLogger | intros ?]);
    first
      [ apply runs_keeps_getLogger
      | apply runs_keeps_basicConfig
      | apply runs_keeps_Logger_log
      | apply runs_keeps_Logger_exc
      | apply runs_keeps_Logger_exception
      | apply runs_keeps_Logger_addHandler
      | apply runs_keeps_Handler_init
      | apply (runs_quiet_keeps not_handle); apply Handler_handle_quiet
      | apply (runs_quiet_keeps not_handle); apply Handler_emit_quiet
      | apply (runs_quiet_keeps (fun _ => True));
        apply Formatter_format_quiet; now intros
      | idtac ].
  - now apply runs_keeps_modify.
  - now apply runs_keeps_update_logger.
  - apply (runs_quiet_keeps (fun _ => True)). unfold Logger_isEnabledFor. quiet_steps.
  - unfold FileHandler_init.
    apply runs_keeps_bind; [apply runs_keeps_Handler_init |]. intros h.
    apply runs_keeps_bind; [| intros _; apply runs_keeps_ret].
    destruct (negb delay); [| apply runs_keeps_ret].
    apply (runs_quiet_keeps not_handle). apply open_into_quiet.
  - apply (runs_quiet_keeps (fun _ => True)). unfold Handler_setFormatter. auto with quiet.
  - apply (runs_quiet_keeps (fun _ => True)). unfold Handler_setLevel. auto with quiet.
  - unfold LogRecord_init.
    apply runs_keeps_bind; [intros st; apply keeps_refl |].
    intros st0. apply runs_keeps_alloc_record.
Qed.

(** In every state a program reaches, the global [root] is the logger
    registered under that name, and this logger exists. *)
Lemma reachable_root st :
  reachable st ->
  exists r L, root st = Some r /\ _loggers st !! "root" = Some r /\
              heap_loggers st !! r = Some L /\ Logger_name L = "root".
Proof.
  induction 1 as [now exc | st A c _ IH | st now exc _ IH].
  - exists 0%nat. eexists. repeat split.
  - destruct IH as (r & L & E1 & E2 & E3 & E4).
    destruct (runs_keeps_run c st) as (K1 & K2 & K3).
    destruct (K3 _ _ E3) as (L' & E3' & E4').
    exists r, L'. repeat split; [congruence | auto | exact E3' | congruence].
  - exact IH.
Qed.

(** C7. In every state a program reaches, each module-level convenience
    function does exactly what the same-named method of the root logger
    (the global [root]) does with the same message and positional
    arguments; [module] is passed on by [info] and [debug] and left at its
    default by the others. *)
Theorem module_functions_delegate (st : State) (msg : string) (args : list value)
    (module : option string) :
  reachable st ->
  exists r,
    root st = Some r /\
    info msg args module st = Logger_info r msg args module st /\
    debug msg args module st = Logger_debug r msg args module st /\
    warning msg args st = Logger_warning r msg args None st /\
    error msg args st = Logger_error r msg args None st /\
    critical msg args st = Logger_critical r msg args None st /\
    exception msg args st = Logger_exception r msg args None st.
Proof.
  intros Hr. destruct (reachable_root st Hr) as (r & L & E1 & E2 & _).
  exists r. split; [exact E1 |].
  assert (G : getLogger None st = (Ok r, st)) by now apply getLogger_registered.
  unfold info, debug, warning, error, critical, exception.
  now rewrite !(bind_Ok _ _ _ _ _ G).
Qed.

Lemma Formatter_init_Ok fmt datefmt style converter f :
  Formatter_init fmt datefmt style converter = Ok f ->
  (style = "%" \/ style = "{") /\
  Formatter_style f = style /\
  formatException f = Formatter_formatException /\
  Formatter_fmt f = str_or fmt "%(message)s" /\
  Formatter_datefmt f = str_or datefmt "{0}-{1}-{2} {3}:{4}:{5}" /\
  Formatter_converter f = default utime_localtime converter.
Proof.
  unfold Formatter_init.
  destruct (String.eqb_spec style "%") as [E1 | N1];
    [| destruct (String.eqb_spec style "{") as [E2 | N2]]; simpl;
    intros E; inversion E; subst; simpl; destruct converter; auto 10.
Qed.

Lemma Formatter_format_no_style_error self record :
  (Formatter_style self = "%" \/ Formatter_style self = "{") ->
  formatException self = Formatter_formatException ->
  raises_only (fun e => ~ style_error e) (Formatter_format self record).
Proof.
  intros Hs Hx.
  assert (HB : forall cls detail, ~ style_error (Builtin cls detail)) by (intros ? ? []).
  unfold Formatter_format, Formatter_formatTime, the_record.
  repeat first
    [ apply raises_only_ret | apply raises_only_tell
    | apply raises_only_builtin; exact HB
    | apply raises_only_deref; exact HB
    | apply raises_only_getattr; exact HB
    | apply raises_only_update_record; exact HB
    | match goal with
      | |- raises_only _ (bind _ _) => apply raises_only_bind; [| intros ?]
      | |- raises_only _ (if negb (is_None ?v) then _ else _) => destruct (is_None v); simpl
      | |- raises_only _ (if truthy ?b then _ else _) => destruct (truthy b)
      end ].
  - rewrite Hx. intros st e E. simpl in E. inversion E; subst. intros [].
  - destruct (String.eqb_spec (Formatter_style self) "%") as [E1 | N1];
      [apply raises_only_builtin; exact HB |].
    destruct (String.eqb_spec (Formatter_style self) "{") as [E2 | N2];
      [apply raises_only_builtin; exact HB |].
    now destruct Hs.
Qed.

(** C8. Constructing a [Formatter] fails if and only if the style is
    neither the percent sign nor the opening brace, and then with the
    constructor's [ValueError]; with one of the two styles construction
    succeeds, and [format] on the constructed formatter never raises its
    style error. *)
Theorem Formatter_style_checked (fmt datefmt : option string) (style : string)
    (converter : option (number -> builtin_result (list value))) :
  ((exists e, Formatter_init fmt datefmt style converter = Raise e)
     <-> style <> "%" /\ style <> "{") /\
  (forall e, Formatter_init fmt datefmt style converter = Raise e ->
     e = Raised StyleMustBeOneOf /\ exn_class e = "ValueError") /\
  (forall f, Formatter_init fmt datefmt style converter = Ok f ->
     (style = "%" \/ style = "{") /\
     forall record st e,
       fst (Formatter_format f record st) = Raise e -> ~ style_error e).
Proof.
  split; [| split].
  - unfold Formatter_init.
    destruct (String.eqb_spec style "%") as [E1 | N1];
      [| destruct (String.eqb_spec style "{") as [E2 | N2]]; simpl.
    + split; [intros (e & E); discriminate | intros (N & _); contradiction].
    + split; [intros (e & E); discriminate | intros (_ & N); contradiction].
    + split; [now intros _ | intros _; eauto].
  - unfold Formatter_init. intros e.
    destruct (negb _); intros E; inversion E; subst. now split.
  - intros f E. apply Formatter_init_Ok in E as (Hs & Es & Ex & _).
    split; [exact Hs |]. intros record st e.
    apply Formatter_format_no_style_error; [now rewrite Es | exact Ex].
Qed.

Lemma bind_assoc {A B C} (m : M A) (k : A -> M B) (h : B -> M C) st :
  bind (bind m k) h st = bind m (fun a => bind (k a) h) st.
Proof. unfold bind. destruct (m st) as [[a | e] st1]; reflexivity. Qed.

Lemma update_record_Some st l R f :
  heap_records st !! l = Some R ->
  update_record l f st = (Ok tt, set_heap_records (fun h => <[l := f R]> h) st).
Proof. intros E. unfold update_record. now rewrite (bind_the_record _ _ _ _ E). Qed.

Lemma lookup_updated_record st l R R' :
  heap_records st !! l = Some R ->
  heap_records (set_heap_records (fun h => <[l := R']> h) st) !! l = Some R'.
Proof.
  intros E. simpl. apply list_lookup_insert_eq. now apply lookup_lt_Some in E.
Qed.



(** The three ways through the first half of [format]. *)
Lemma Formatter_format_steps self record R st :
  heap_records st !! record = Some R ->
  Formatter_format self record st =
  match str_mod (LogRecord_msg R) (OTuple (LogRecord_args R)) with
  | Fails cls detail => (Raise (Builtin cls detail), st)
  | Returns message =>
      let st1 := set_heap_records (fun h => <[record := set_message message R]> h) st in
      if truthy (Formatter_usesTime self)
      then
        let st2 := set_trace (fun t => t ++ [EvConverter (LogRecord_created R)]) st1 in
        match Formatter_converter self (LogRecord_created R) with
        | Fails cls detail => (Raise (Builtin cls detail), st2)
        | Returns ct =>
            match str_format (Formatter_datefmt self) ct [] with
            | Fails cls detail => (Raise (Builtin cls detail), st2)
            | Returns asctime =>
                format_exc_and_render self record
                  (set_heap_records
                     (fun h => <[record := set_asctime asctime (set_message message R)]> h)
                     st2)
            end
        end
      else format_exc_and_render self record st1
  end.
Proof.
  intros ER. unfold Formatter_format.
  rewrite (bind_the_record _ _ _ _ ER).
  unfold bind at 1. unfold builtin at 1, lift at 1.
  destruct (str_mod (LogRecord_msg R) (OTuple (LogRecord_args R))) as [message | cls d];
    [| reflexivity].
  simpl of_builtin. cbv beta iota.
  rewrite (bind_Ok _ _ _ _ _ (update_record_Some _ _ _ _ ER)).
  set (st1 := set_heap_records (fun h => <[record := set_message message R]> h) st).
  assert (E1 : heap_records st1 !! record = Some (set_message message R))
    by (eapply lookup_updated_record; exact ER).
  fold (format_exc_and_render self record).
  destruct (truthy (Formatter_usesTime self)); [| reflexivity].
  unfold Formatter_formatTime.
  rewrite !bind_assoc. rewrite (bind_the_record _ _ _ _ E1).
  rewrite !bind_assoc. unfold bind at 1. unfold tell at 1, modify at 1.
  cbv beta iota. simpl LogRecord_created.
  set (st2 := set_trace (fun t => t ++ [EvConverter (LogRecord_created R)]) st1).
  rewrite !bind_assoc. unfold bind at 1. unfold builtin at 1, lift at 1.
  destruct (Formatter_converter self (LogRecord_created R)) as [ct | cls d];
    [| reflexivity].
  simpl of_builtin. cbv beta iota.
  unfold bind at 1. unfold builtin at 1, lift at 1.
  destruct (str_format (Formatter_datefmt self) ct []) as [asctime | cls d];
    [| reflexivity].
  simpl of_builtin. cbv beta iota.
  assert (E2 : heap_records st2 !! record = Some (set_message message R)) by exact E1.
  rewrite (bind_Ok _ _ _ _ _ (update_record_Some _ _ _ _ E2)).
  reflexivity.
Qed.




Lemma format_exc_and_render_no_exc self record R st :
  heap_records st !! record = Some R ->
  LogRecord_exc_info R = VNone ->
  heap_records (snd (format_exc_and_render self record st)) = heap_records st.
Proof.
  intros ER EX. unfold format_exc_and_render.
  rewrite (bind_the_record _ _ _ _ ER). rewrite EX. simpl negb. cbv iota.
  unfold bind at 1. unfold ret at 1.
  rewrite (bind_the_record _ _ _ _ ER).
  destruct (Formatter_style self =? "%")%string;
    [| destruct (Formatter_style self =? "{")%string]; reflexivity.
Qed.

Lemma Handler_emit_stream self record H _stream terminator st e st' :
  heap_handlers st !! self = Some H ->
  Handler_class H = StreamHandler _stream terminator ->
  Formatter_format (Handler_formatter H) record st = (Raise e, st') ->
  Handler_emit self record st = (Raise e, st').
Proof.
  intros EH EC EF. unfold Handler_emit.
  rewrite (bind_the_handler _ _ _ _ EH). rewrite EC.
  now rewrite (bind_Raise _ _ _ _ _ EF).
Qed.

(** C10. For every record and every formatter, of either style, [format]
    first computes [record.message] as [record.msg % record.args], also
    when [args] is empty: if that interpolation fails, [format] fails with
    its error and nothing else has happened; if it succeeds (and the
    record carries no exception information) the result is what
    [record.message] holds.  Hence, [%] failing on a bare directive for
    want of arguments, a message with a bare conversion directive logged
    without arguments makes [format], and the [log] call that reaches a
    stream handler, raise. *)
Theorem Formatter_format_interpolates :
  needs_arguments host ->
  (forall self record R st,
     heap_records st !! record = Some R ->
     let out := Formatter_format self record st in
     match str_mod (LogRecord_msg R) (OTuple (LogRecord_args R)) with
     | Fails cls detail => out = (Raise (Builtin cls detail), st)
     | Returns message =>
         LogRecord_exc_info R = VNone ->
         exists R', heap_records (snd out) !! record = Some R' /\
                    LogRecord_message R' = Some message
     end) /\
  (forall self record R st,
     heap_records st !! record = Some R ->
     LogRecord_args R = [] ->
     bare_directive (LogRecord_msg R) = true ->
     exists cls detail,
       Formatter_format self record st = (Raise (Builtin cls detail), st)) /\
  (forall self L hdlr rest H _stream terminator level msg module st,
     heap_loggers st !! self = Some L ->
     Logger_handlers L = Some (hdlr :: rest) ->
     heap_handlers st !! hdlr = Some H ->
     Handler_class H = StreamHandler _stream terminator ->
     effective_threshold (Logger_level L) st <= level ->
     effective_threshold (Handler_level H) st <= level ->
     bare_directive msg = true ->
     exists cls detail,
       fst (Logger_log self level msg [] module st) = Raise (Builtin cls detail)).
Proof.
  intros Hlaw.
  assert (P1 : forall self record R st,
     heap_records st !! record = Some R ->
     let out := Formatter_format self record st in
     match str_mod (LogRecord_msg R) (OTuple (LogRecord_args R)) with
     | Fails cls detail => out = (Raise (Builtin cls detail), st)
     | Returns message =>
         LogRecord_exc_info R = VNone ->
         exists R', heap_records (snd out) !! record = Some R' /\
                    LogRecord_message R' = Some message
     end).
  { intros self record R st ER out. unfold out.
    rewrite (Formatter_format_steps _ _ _ _ ER).
    destruct (str_mod (LogRecord_msg R) (OTuple (LogRecord_args R))) as [message | cls d];
      [| reflexivity].
    intros EX. cbv zeta.
    set (st1 := set_heap_records (fun h => <[record := set_message message R]> h) st).
    assert (E1 : heap_records st1 !! record = Some (set_message message R))
      by (eapply lookup_updated_record; exact ER).
    destruct (truthy (Formatter_usesTime self)).
    - destruct (Formatter_converter self (LogRecord_created R)) as [ct | cls d];
        [| now exists (set_message message R)].
      destruct (str_format (Formatter_datefmt self) ct []) as [asctime | cls d];
        [| now exists (set_message message R)].
      exists (set_asctime asctime (set_message message R)).
      erewrite format_exc_and_render_no_exc;
        [| eapply lookup_updated_record; exact E1 | exact EX].
      split; [eapply lookup_updated_record; exact E1 | reflexivity].
    - exists (set_message message R).
      erewrite format_exc_and_render_no_exc; [| exact E1 | exact EX].
      split; [exact E1 | reflexivity]. }
  assert (P2 : forall self record R st,
     heap_records st !! record = Some R ->
     LogRecord_args R = [] ->
     bare_directive (LogRecord_msg R) = true ->
     exists cls detail,
       Formatter_format self record st = (Raise (Builtin cls detail), st)).
  { intros self record R st ER EA EB.
    destruct (Hlaw _ EB) as (cls & d & E).
    exists cls, d. pose proof (P1 self record R st ER) as G.
    rewrite EA, E in G. exact G. }
  split; [exact P1 |]. split; [exact P2 |].
  intros self L hdlr rest H _stream terminator level msg module st
         EL EHs EH EC HL HH EB.
  destruct (Logger_log_accepted self L level msg [] module st EL HL)
    as (R & E & ERl & ERm & ERa).
  rewrite E, EHs. change (default [] (Some (hdlr :: rest))) with (hdlr :: rest).
  rewrite for_hdlr_cons.
  set (record := length (heap_records st)).
  set (st2 := set_trace (fun t => t ++ [EvHandle hdlr record])
                (set_heap_records (fun h => h ++ [R]) st)).
  assert (ER : heap_records st2 !! record = Some R) by apply lookup_snoc.
  assert (EH2 : heap_handlers st2 !! hdlr = Some H) by exact EH.
  rewrite (Handler_handle_accepted hdlr record H R st2 EH2 ER)
    by (rewrite ERl; exact HH).
  set (st3 := set_trace (fun t => t ++ [EvEmit hdlr record]) st2).
  assert (ER3 : heap_records st3 !! record = Some R) by exact ER.
  rewrite <- ERm in EB.
  destruct (P2 (Handler_formatter H) record R st3 ER3 ERa EB) as (cls & d & EF).
  rewrite (Handler_emit_stream hdlr record H _stream terminator st3 _ _ EH2 EC EF).
  now exists cls, d.
Qed.

(** C5, where the code departs from it.  [Logger._level_str] gives the
    registered name or, for an unregistered level, what ["LVL%s" % level]
    gives; but [LogRecord.__init__] does not use it: the record of an
    unregistered level has [levelname] [None]. *)
Theorem LogRecord_levelname_unregistered (self : loc) (name : string) (level : Z)
    (pathname lineno : value) (msg : string) (args : list value)
    (exc_info func sinfo : value) (module : option string) (st : State) :
  _level_dict st !! level = None ->
  Logger__level_str self level st =
    (of_builtin (str_mod "LVL%s" (OSingle (VInt level))), st) /\
  exists R,
    heap_records (snd (LogRecord_init name level pathname lineno msg args
                                      exc_info func sinfo module st))
      !! length (heap_records st) = Some R /\
    LogRecord_levelno R = level /\
    LogRecord_levelname R = VNone.
Proof.
  intros E. split.
  - unfold Logger__level_str, bind, get. now rewrite E.
  - eexists. split; [apply lookup_snoc |]. simpl. now rewrite E.
Qed.

(** C6, where the code departs from it.  A record as [LogRecord.__init__]
    leaves it has no [exc_text]; when it carries exception information,
    [format] never returns: whatever [formatException] does, the read of
    [record.exc_text] fails first, unless an earlier step already has. *)
Theorem Formatter_format_exc_text_unset (self : Formatter) (record : loc)
    (R : LogRecord) (st : State) :
  heap_records st !! record = Some R ->
  LogRecord_exc_info R <> VNone ->
  LogRecord_exc_text R = None ->
  exists e, fst (Formatter_format self record st) = Raise e /\
    (forall message,
       str_mod (LogRecord_msg R) (OTuple (LogRecord_args R)) = Returns message ->
       truthy (Formatter_usesTime self) = false ->
       e = Builtin "AttributeError" "'LogRecord' object has no attribute 'exc_text'").
Proof.
  intros ER EX ET.
  assert (G : forall R1 st1,
            heap_records st1 !! record = Some R1 ->
            LogRecord_exc_info R1 = LogRecord_exc_info R ->
            LogRecord_exc_text R1 = None ->
            fst (format_exc_and_render self record st1) =
            Raise (Builtin "AttributeError"
                     "'LogRecord' object has no attribute 'exc_text'")).
  { intros R1 st1 E1 X1 T1. unfold format_exc_and_render.
    rewrite (bind_the_record _ _ _ _ E1). rewrite X1, T1.
    destruct (LogRecord_exc_info R); [contradiction | ..]; reflexivity. }
  rewrite (Formatter_format_steps _ _ _ _ ER).
  destruct (str_mod (LogRecord_msg R) (OTuple (LogRecord_args R))) as [message | cls d];
    [| eexists; split; [reflexivity | discriminate]].
  cbv zeta.
  set (st1 := set_heap_records (fun h => <[record := set_message message R]> h) st).
  assert (E1 : heap_records st1 !! record = Some (set_message message R))
    by (eapply lookup_updated_record; exact ER).
  destruct (truthy (Formatter_usesTime self)).
  - destruct (Formatter_converter self (LogRecord_created R)) as [ct | cls d];
      [| eexists; split; [reflexivity | discriminate]].
    destruct (str_format (Formatter_datefmt self) ct []) as [asctime | cls d];
      [| eexists; split; [reflexivity | discriminate]].
    eexists. split; [| discriminate].
    eapply G; [eapply lookup_updated_record; exact E1 | reflexivity | exact ET].
  - eexists. split; [eapply G; [exact E1 | reflexivity | exact ET] |]. reflexivity.
Qed.

End Claims.

(** ** The small host and the concrete runs *)

Lemma conversion_type_not_paren c :
  is_conversion_type c = true -> (c =? "(")%char = false.
Proof.
  destruct (Ascii.eqb_spec c "(") as [-> | N]; [discriminate | reflexivity].
Qed.

Lemma small_mod_bare_directive s out :
  (bare_directive s = true ->
   exists cls detail, small_mod MText s [] None out = Fails cls detail) /\
  (match s with
   | EmptyString => false
   | String d rest => if (d =? "%")%char then bare_directive rest else is_conversion_type d
   end = true ->
   exists cls detail, small_mod MPercent s [] None out = Fails cls detail).
Proof.
  revert out. induction s as [| c s IH]; intros out.
  - split; discriminate.
  - split.
    + cbn [bare_directive small_mod].
      destruct (c =? "%")%char.
      * intros E. now apply (IH out).
      * intros E. now apply (IH (out +:+ String c EmptyString)).
    + cbn [small_mod].
      destruct (c =? "%")%char.
      * intros E. now apply (IH (out +:+ "%")).
      * intros E. rewrite (conversion_type_not_paren _ E), E. eauto.
Qed.

Lemma small_host_needs_arguments : needs_arguments small_host.
Proof.
  intros s E. apply (small_mod_bare_directive s EmptyString). exact E.
Qed.

Section SmallHostRuns.
#[local] Existing Instance small_host.

Lemma Handler_handle_threshold_witness :
  Handler_handle 0%nat 0%nat missing_argument =
  Handler_emit 0%nat 0%nat
    (set_trace (fun t => t ++ [EvEmit 0%nat 0%nat]) missing_argument).
Proof.
  refine (proj1 (proj2 (Handler_handle_threshold 0%nat 0%nat default_handler _
                          missing_argument eq_refl eq_refl)) _).
  vm_compute. discriminate.
Defined.

Lemma Logger_log_threshold_witness :
  Logger_log 0%nat DEBUG "detail" [] None start = (Ok tt, start) /\
  dispatch 0%nat [0%nat]
    (set_heap_records (fun h => h ++ [logged_record start "root" INFO "up" [] None])
       start)
    (Logger_log 0%nat INFO "up" [] None start).
Proof.
  split.
  - refine (proj1 (proj2 (Logger_log_threshold 0%nat _ DEBUG "detail" [] None start
                            eq_refl)) _).
    vm_compute. reflexivity.
  - refine (proj1 (proj2 (proj1 (proj2 (proj2 (Logger_log_threshold 0%nat _ INFO "up" []
                                                 None start eq_refl))) _))).
    vm_compute. discriminate.
Defined.

Lemma Logger_log_fan_out_witness :
  exists st',
    Logger_log 1%nat INFO "hi" [] None two_handlers =
    (Raise (Raised EmitNotImplemented), st').
Proof.
  eexists.
  refine (proj1 (proj2 (proj2 (Logger_log_fan_out 1%nat _ [1%nat; 2%nat] INFO "hi" []
                                 None two_handlers eq_refl eq_refl _))
                   [] 1%nat [2%nat] _ _ _ eq_refl (dispatch_done _ _) _)).
  - vm_compute. discriminate.
  - vm_compute. reflexivity.
Defined.

(** C3 as stated fails: with a base [Handler] attached before a
    [StreamHandler], the error of the first leaves [log] and the second
    handler never receives the record. *)
Lemma fan_out_stops_at_failure :
  (Logger_handlers <$> heap_loggers two_handlers !! 1%nat) = Some (Some [1%nat; 2%nat]) /\
  (Handler_class <$> heap_handlers two_handlers !! 2%nat)
    = Some (StreamHandler sys_stderr newline) /\
  fst (Logger_log 1%nat INFO "hi" [] None two_handlers) = Raise (Raised EmitNotImplemented) /\
  trace (snd (Logger_log 1%nat INFO "hi" [] None two_handlers)) =
    [EvHandle 1%nat 0%nat; EvEmit 1%nat 0%nat].
Proof. vm_compute. repeat split. Qed.

Lemma module_functions_delegate_witness :
  exists r,
    root start = Some r /\
    info "up" [] None start = Logger_info r "up" [] None start /\
    debug "up" [] None start = Logger_debug r "up" [] None start /\
    warning "up" [] start = Logger_warning r "up" [] None start /\
    error "up" [] start = Logger_error r "up" [] None start /\
    critical "up" [] start = Logger_critical r "up" [] None start /\
    exception "up" [] start = Logger_exception r "up" [] None start.
Proof.
  exact (module_functions_delegate start "up" [] None (reachable_import 0 VNone)).
Defined.



Lemma Formatter_format_interpolates_witness :
  exists cls detail,
    fst (Logger_log 0%nat INFO "%d items" [] None start) = Raise (Builtin cls detail).
Proof.
  refine (proj2 (proj2 (Formatter_format_interpolates small_host_needs_arguments))
            0%nat _ 0%nat [] default_handler sys_stderr newline INFO "%d items" None
            start eq_refl eq_refl eq_refl eq_refl _ _ eq_refl);
    vm_compute; discriminate.
Defined.

Lemma LogRecord_levelname_unregistered_witness :
  Logger__level_str 0%nat 25 start = (Ok "LVL25", start) /\
  exists R,
    heap_records (snd (LogRecord_init "root" 25 VNone VNone "x" [] VNone VNone VNone
                                      None start)) !! 0%nat = Some R /\
    LogRecord_levelno R = 25 /\
    LogRecord_levelname R = VNone.
Proof.
  exact (LogRecord_levelname_unregistered 0%nat "root" 25 VNone VNone "x" []
           VNone VNone VNone None start eq_refl).
Defined.

(** The failing run of C5: after
    [basicConfig(format="%(levelname)s:%(message)s")], [root.log(25, "x")]
    writes the level name as [None]. *)
Lemma unregistered_level_written_as_None :
  trace (snd (Logger_log 0%nat 25 "x" [] None level_shown)) =
    [EvHandle 1%nat 0%nat; EvEmit 1%nat 0%nat;
     EvWrite (ToStream sys_stderr) ("None:x" +:+ newline)] /\
  Logger__level_str 0%nat 25 level_shown = (Ok "LVL25", level_shown).
Proof. vm_compute. split; reflexivity. Qed.

Lemma Formatter_format_exc_text_unset_witness :
  exists e,
    fst (Formatter_format tracing_formatter 0%nat with_exc_info) = Raise e /\
    (forall message,
       str_mod "failed" (OTuple []) = Returns message ->
       truthy (Formatter_usesTime tracing_formatter) = false ->
       e = Builtin "AttributeError" "'LogRecord' object has no attribute 'exc_text'").
Proof.
  refine (Formatter_format_exc_text_unset tracing_formatter 0%nat _ with_exc_info
            eq_refl _ eq_refl).
  vm_compute. discriminate.
Defined.

(** The failing run of C6: the formatter's [formatException] returns a
    string, the record carries exception information, and [format] raises
    instead of appending the text. *)
Lemma exception_text_not_appended :
  fst (Formatter_format tracing_formatter 0%nat with_exc_info) =
    Raise (Builtin "AttributeError" "'LogRecord' object has no attribute 'exc_text'") /\
  (LogRecord_message <$>
     heap_records (snd (Formatter_format tracing_formatter 0%nat with_exc_info)) !! 0%nat)
    = Some (Some "failed").
Proof. vm_compute. split; reflexivity. Qed.

(** Sample runs of the whole pipeline. *)

Example root_info_written :
  info "started %s" [VStr "v1"] None start =
  (Ok tt,
   set_trace (fun _ => [EvHandle 0%nat 0%nat; EvEmit 0%nat 0%nat;
                        EvWrite (ToStream sys_stderr) ("started v1" +:+ newline)])
     (set_heap_records
        (fun _ => [mkLogRecord 0 0 "root" INFO (VStr "INFO") VNone VNone "started %s"
                     [VStr "v1"] VNone VNone VNone "<?>" (Some "started v1") None None])
        start)).
Proof. vm_compute. reflexivity. Qed.

Example configured_line_written :
  trace (snd (info "started %s" [VStr "v1"] None level_shown)) =
  [EvHandle 1%nat 0%nat; EvEmit 1%nat 0%nat;
   EvWrite (ToStream sys_stderr) ("INFO:started v1" +:+ newline)].
Proof. vm_compute. reflexivity. Qed.

Example svc_has_no_handler :
  trace (snd ((svc <- getLogger (Some "svc") ;;
               Logger_info svc "started %s" [VStr "v1"] None) start)) = [].
Proof. vm_compute. reflexivity. Qed.

Example timestamp_rendered :
  let st := snd (LogRecord_init "svc" INFO VNone VNone "up" [] VNone VNone VNone None
                                start) in
  fst (Formatter_format timed_formatter 0%nat st) = Ok "2000-1-1 0:0:0 up" /\
  trace (snd (Formatter_format timed_formatter 0%nat st)) = [EvConverter 0].
Proof. vm_compute. split; reflexivity. Qed.

Example style_rejected :
  Formatter_init None None "$" None = Raise (Raised StyleMustBeOneOf).
Proof. reflexivity. Qed.

End SmallHostRuns.

(** * Further properties of the module *)

(** ** Computations and relations on states *)

Lemma runs_bind (R : State -> State -> Prop) `{!Transitive R} {A B}
    (m : M A) (k : A -> M B) :
  runs R m -> (forall a, runs R (k a)) -> runs R (bind m k).
Proof.
  intros Hm Hk st. unfold bind.
  specialize (Hm st). destruct (m st) as [[a | e] st1]; simpl in *.
  - etransitivity; [exact Hm | apply Hk].
  - exact Hm.
Qed.

Lemma runs_ret (R : State -> State -> Prop) `{!Reflexive R} {A} (a : A) : runs R (ret a).
Proof. intros st. simpl. reflexivity. Qed.

Lemma runs_raise (R : State -> State -> Prop) `{!Reflexive R} {A} e : runs R (@raise A e).
Proof. intros st. simpl. reflexivity. Qed.

Lemma runs_lift (R : State -> State -> Prop) `{!Reflexive R} {A} (r : Res A) :
  runs R (lift r).
Proof. intros st. simpl. reflexivity. Qed.

Lemma runs_builtin (R : State -> State -> Prop) `{!Reflexive R} {A}
    (r : builtin_result A) : runs R (builtin r).
Proof. intros st. simpl. reflexivity. Qed.

Lemma runs_get (R : State -> State -> Prop) `{!Reflexive R} : runs R get.
Proof. intros st. simpl. reflexivity. Qed.

Lemma runs_the_record (R : State -> State -> Prop) `{!Reflexive R} l :
  runs R (the_record l).
Proof. intros st. unfold the_record, deref. destruct (_ !! _); simpl; reflexivity. Qed.

Lemma runs_the_handler (R : State -> State -> Prop) `{!Reflexive R} l :
  runs R (the_handler l).
Proof. intros st. unfold the_handler, deref. destruct (_ !! _); simpl; reflexivity. Qed.

Lemma runs_the_logger (R : State -> State -> Prop) `{!Reflexive R} l :
  runs R (the_logger l).
Proof. intros st. unfold the_logger, deref. destruct (_ !! _); simpl; reflexivity. Qed.

Lemma runs_getattr (R : State -> State -> Prop) `{!Reflexive R} cls attr v :
  runs R (getattr cls attr v).
Proof. destruct v; [apply runs_ret | apply runs_raise]; assumption. Qed.

Create HintDb runs.
#[export] Hint Resolve runs_ret runs_raise runs_lift runs_builtin runs_get
  runs_the_record runs_the_handler runs_the_logger runs_getattr : runs.

(** Splits a computation along its binds and branches. *)
Ltac runs_steps :=
  repeat first
    [ solve [auto with runs typeclass_instances]
    | match goal with
      | |- runs _ (bind _ _) => apply runs_bind; [typeclasses eauto | | intros ?]
      | |- runs _ (if ?b then _ else _) => destruct b
      | |- runs _ (match ?x with _ => _ end) => destruct x
      end ].

#[export] Instance only_record_preorder record : PreOrder (only_record record).
Proof.
  split.
  - intros st. unfold only_record. repeat split; eauto.
  - intros st1 st2 st3
           (A1 & A2 & A3 & A4 & A5 & A6 & A7 & A8 & A9 & A10 & A11)
           (B1 & B2 & B3 & B4 & B5 & B6 & B7 & B8 & B9 & B10 & B11).
    unfold only_record. repeat split; try congruence.
    + intros i N. rewrite (B10 i N). now apply A10.
    + intros R E. destruct (A11 R E) as (R' & E' & C').
      destruct (B11 R' E') as (R'' & E'' & C''). exists R''. split; congruence.
Qed.

Lemma mark_open_twice H : mark_open (mark_open H) = mark_open H.
Proof. destruct H as [f l []]; reflexivity. Qed.

#[export] Instance delivery_preorder record : PreOrder (delivery record).
Proof.
  split.
  - intros st. unfold delivery. repeat split; eauto.
  - intros st1 st2 st3
           (A1 & A2 & A3 & A4 & A5 & A6 & A7 & A8 & A9 & A10 & A11 & A12)
           (B1 & B2 & B3 & B4 & B5 & B6 & B7 & B8 & B9 & B10 & B11 & B12).
    unfold delivery. repeat split; try congruence.
    + intros h H E. destruct (A9 h H E) as (H' & E' & C').
      destruct (B9 h H' E') as (H'' & E'' & C''). exists H''. split; [exact E'' |].
      destruct C' as [-> | ->], C'' as [-> | ->]; auto.
      right. apply mark_open_twice.
    + intros i N. rewrite (B11 i N). now apply A11.
    + intros R E. destruct (A12 R E) as (R' & E' & C').
      destruct (B12 R' E') as (R'' & E'' & C''). exists R''. split; congruence.
Qed.

Lemma only_record_delivery record st st' : only_record record st st' -> delivery record st st'.
Proof.
  intros (A1 & A2 & A3 & A4 & A5 & A6 & A7 & A8 & A9 & A10 & A11).
  unfold delivery. repeat split; try congruence; auto.
  intros h H E. exists H. rewrite A6. auto.
Qed.

Lemma runs_only_record_tell record ev : runs (only_record record) (tell ev).
Proof. intros st. unfold only_record. simpl. repeat split; eauto. Qed.

Lemma runs_only_record_update record f :
  (forall R, as_constructed (f R) = as_constructed R) ->
  runs (only_record record) (update_record record f).
Proof.
  intros Hf st. unfold update_record.
  destruct (heap_records st !! record) as [R |] eqn:E.
  - rewrite (bind_the_record _ _ _ _ E). unfold modify, only_record. simpl.
    repeat split; auto.
    + apply length_insert.
    + intros i N. now apply list_lookup_insert_ne.
    + intros R0 E0. exists (f R). split.
      * apply list_lookup_insert_eq. eapply lookup_lt_Some; exact E.
      * rewrite Hf. pose proof (eq_trans (eq_sym E) E0) as X. now inversion X.
  - unfold bind, the_record, deref. rewrite E. simpl. reflexivity.
Qed.

Section Further.
Context {host : Host}.

Lemma Formatter_format_only_record self record :
  runs (only_record record) (Formatter_format self record).
Proof.
  unfold Formatter_format, Formatter_formatTime.
  runs_steps;
    first [ apply runs_only_record_tell
          | apply runs_only_record_update; now intros [] ].
Qed.

Lemma runs_delivery_tell record ev : runs (delivery record) (tell ev).
Proof. intros st. unfold delivery. simpl. repeat split; eauto. Qed.

Lemma runs_delivery_mark_open record self :
  runs (delivery record) (update_handler self mark_open).
Proof.
  intros st. unfold update_handler.
  destruct (heap_handlers st !! self) as [H |] eqn:E.
  - rewrite (bind_the_handler _ _ _ _ E). unfold modify, delivery. simpl.
    repeat split; eauto.
    + apply length_insert.
    + intros h H0 E0. destruct (decide (self = h)) as [<- | N].
      * exists (mark_open H). split.
        -- apply list_lookup_insert_eq. eapply lookup_lt_Some; exact E.
        -- right. pose proof (eq_trans (eq_sym E) E0) as X. now inversion X.
      * exists H0. split; [| now left]. now rewrite list_lookup_insert_ne.
  - unfold bind, the_handler, deref. rewrite E. simpl. reflexivity.
Qed.

Lemma runs_delivery_format record self :
  runs (delivery record) (Formatter_format self record).
Proof. intros st. apply only_record_delivery, Formatter_format_only_record. Qed.

Lemma Handler_emit_delivery self record : runs (delivery record) (Handler_emit self record).
Proof.
  unfold Handler_emit, write, open_into.
  runs_steps;
    first [ apply runs_delivery_tell | apply runs_delivery_mark_open
          | apply runs_delivery_format ].
Qed.

Lemma Handler_handle_delivery self record :
  runs (delivery record) (Handler_handle self record).
Proof.
  unfold Handler_handle.
  runs_steps; first [ apply runs_delivery_tell | apply Handler_emit_delivery ].
Qed.

Lemma for_hdlr_delivery hdlrs record : runs (delivery record) (for_hdlr hdlrs record).
Proof.
  induction hdlrs as [| hdlr rest IH]; simpl.
  - apply runs_ret. typeclasses eauto.
  - runs_steps; first [ apply runs_delivery_tell | apply Handler_handle_delivery | exact IH ].
Qed.

(** The three ways through [Logger.log]. *)
Lemma Logger_log_cases self level msg args module st :
  Logger_log self level msg args module st =
  match heap_loggers st !! self with
  | None => (Raise (Builtin "SystemError" "no such Logger"), st)
  | Some L =>
      if level >=? int_or (Logger_level L) (_level st)
      then for_hdlr (default [] (Logger_handlers L)) (length (heap_records st))
             (set_heap_records
                (fun h => h ++ [logged_record st (Logger_name L) level msg args module])
                st)
      else (Ok tt, st)
  end.
Proof.
  unfold Logger_log.
  destruct (heap_loggers st !! self) as [L |] eqn:EL.
  2:{ unfold bind, the_logger, deref. now rewrite EL. }
  rewrite (bind_the_logger _ _ _ _ EL). unfold bind at 1, get.
  destruct (level >=? int_or (Logger_level L) (_level st)); [| reflexivity].
  set (st1 := set_heap_records
                (fun h => h ++ [logged_record st (Logger_name L) level msg args module])
                st).
  assert (E1 : LogRecord_init (Logger_name L) level VNone VNone msg args
                 VNone VNone VNone module st = (Ok (length (heap_records st)), st1))
    by reflexivity.
  rewrite (bind_Ok _ _ _ _ _ E1).
  rewrite (bind_the_logger _ _ st1 L) by exact EL.
  destruct (Logger_handlers L) as [[| hdlr rest] |]; reflexivity.
Qed.

(** What a [log] call leaves alone.  The globals, the registry and the
    loggers are as before; every record that existed is unchanged; a
    handler is as before or is a file handler that has been opened; at
    most one record is new, and it holds what the call was given, with the
    level name of the moment, the clock [ct] as [utime.time()] gives it,
    integer or float, and [(ct - int(ct)) * 1000] as its milliseconds. *)
Theorem Logger_log_frame (self : loc) (level : Z) (msg : string) (args : list value)
    (module : option string) (st : State) :
  let st' := snd (Logger_log self level msg args module st) in
  (_level_dict st' = _level_dict st /\ _level st' = _level st /\
   _loggers st' = _loggers st /\ root st' = root st /\
   heap_loggers st' = heap_loggers st) /\
  (length (heap_handlers st') = length (heap_handlers st) /\
   forall h H, heap_handlers st !! h = Some H ->
     exists H', heap_handlers st' !! h = Some H' /\ (H' = H \/ H' = mark_open H)) /\
  (forall i R, heap_records st !! i = Some R -> heap_records st' !! i = Some R) /\
  (length (heap_records st') <= S (length (heap_records st)))%nat /\
  (forall R', heap_records st' !! length (heap_records st) = Some R' ->
     exists L, heap_loggers st !! self = Some L /\
       as_constructed R' = logged_record st (Logger_name L) level msg args module).
Proof.
  intros st'. unfold st'. rewrite Logger_log_cases.
  destruct (heap_loggers st !! self) as [L |] eqn:EL.
  2:{ simpl. repeat split; eauto; try lia.
      intros R' E. apply lookup_lt_Some in E. lia. }
  destruct (level >=? int_or (Logger_level L) (_level st)).
  2:{ simpl. repeat split; eauto; try lia.
      intros R' E. apply lookup_lt_Some in E. lia. }
  set (R0 := logged_record st (Logger_name L) level msg args module).
  set (st1 := set_heap_records (fun h => h ++ [R0]) st).
  set (n := length (heap_records st)).
  pose proof (for_hdlr_delivery (default [] (Logger_handlers L)) n st1) as D.
  destruct D as (A1 & A2 & A3 & A4 & A5 & A6 & A7 & A8 & A9 & A10 & A11 & A12).
  assert (ER0 : heap_records st1 !! n = Some R0) by apply lookup_snoc.
  assert (C0 : as_constructed R0 = R0) by reflexivity.
  split; [repeat split; assumption |]. split; [split; assumption |].
  split; [| split].
  - intros i R E. rewrite A11.
    + simpl. now apply lookup_app_l_Some.
    + apply lookup_lt_Some in E. fold n in E. lia.
  - rewrite A10. unfold st1. simpl. rewrite length_app. simpl. lia.
  - intros R' E'. exists L. split; [reflexivity |].
    destruct (A12 R0 ER0) as (R'' & E'' & C'').
    pose proof (eq_trans (eq_sym E') E'') as X. inversion X; subst.
    rewrite C''. exact C0.
Qed.


Lemma Handler_handle_filtered self record H R st :
  heap_handlers st !! self = Some H ->
  heap_records st !! record = Some R ->
  LogRecord_levelno R < effective_threshold (Handler_level H) st ->
  Handler_handle self record st = (Ok tt, st).
Proof.
  intros EH ER Hlt. unfold Handler_handle.
  rewrite (bind_the_handler _ _ _ _ EH), (bind_the_record _ _ _ _ ER).
  unfold bind, get. rewrite int_or_threshold.
  destruct (Z.geb_spec (LogRecord_levelno R) (effective_threshold (Handler_level H) st));
    [lia | reflexivity].
Qed.

Lemma set_trace_twice evs1 evs2 st :
  set_trace (fun t => t ++ evs2) (set_trace (fun t => t ++ evs1) st) =
  set_trace (fun t => t ++ evs1 ++ evs2) st.
Proof. unfold set_trace. simpl. now rewrite app_assoc. Qed.

Lemma for_hdlr_filtered hdlrs record R st :
  heap_records st !! record = Some R ->
  (forall h, h ∈ hdlrs ->
     exists H, heap_handlers st !! h = Some H /\
               LogRecord_levelno R < effective_threshold (Handler_level H) st) ->
  for_hdlr hdlrs record st =
  (Ok tt, set_trace (fun t => t ++ map (fun h => EvHandle h record) hdlrs) st).
Proof.
  revert st. induction hdlrs as [| hdlr rest IH]; intros st ER Hall.
  - simpl. unfold ret, set_trace. simpl. rewrite app_nil_r. now destruct st.
  - rewrite for_hdlr_cons.
    destruct (Hall hdlr) as (H & EH & Hlt); [now left |].
    set (st1 := set_trace (fun t => t ++ [EvHandle hdlr record]) st).
    rewrite (Handler_handle_filtered hdlr record H R st1 EH ER Hlt).
    rewrite IH; [| exact ER | intros h Hin; apply Hall; now right].
    unfold st1. now rewrite set_trace_twice.
Qed.

(** A record the logger accepts is still dropped by every handler whose
    own threshold it does not reach: [log] then constructs the record,
    calls [handle] on each attached handler in turn, and returns without
    any [emit] or write.  A logger without handlers is the case of none. *)
Theorem Logger_log_handlers_filter (self : loc) (L : Logger) (level : Z) (msg : string)
    (args : list value) (module : option string) (st : State) :
  heap_loggers st !! self = Some L ->
  effective_threshold (Logger_level L) st <= level ->
  (forall h, h ∈ default [] (Logger_handlers L) ->
     exists H, heap_handlers st !! h = Some H /\
               level < effective_threshold (Handler_level H) st) ->
  Logger_log self level msg args module st =
  (Ok tt,
   set_trace
     (fun t => t ++ map (fun h => EvHandle h (length (heap_records st)))
                        (default [] (Logger_handlers L)))
     (set_heap_records
        (fun h => h ++ [logged_record st (Logger_name L) level msg args module]) st)).
Proof.
  intros EL Hge Hall. rewrite Logger_log_cases, EL, int_or_threshold.
  destruct (Z.geb_spec level (effective_threshold (Logger_level L) st)); [| lia].
  apply (for_hdlr_filtered _ _ (logged_record st (Logger_name L) level msg args module)).
  - apply lookup_snoc.
  - exact Hall.
Qed.

(** [addLevelName] registers or overwrites the name of one level: from
    then on [_level_str] returns it and new records of that level carry
    it, while the names of all other levels are as before. *)
Theorem addLevelName_registers (level : Z) (name : string) (st : State) :
  let st' := snd (addLevelName level name st) in
  fst (addLevelName level name st) = Ok tt /\
  (forall self, Logger__level_str self level st' = (Ok name, st')) /\
  (forall n pathname lineno msg args exc_info func sinfo module,
     exists R,
       heap_records (snd (LogRecord_init n level pathname lineno msg args exc_info
                                         func sinfo module st'))
         !! length (heap_records st) = Some R /\
       LogRecord_levelname R = VStr name) /\
  (forall other, other <> level -> _level_dict st' !! other = _level_dict st !! other).
Proof.
  intros st'. split; [reflexivity |]. split; [| split].
  - intros self. unfold Logger__level_str, bind, get, st'. simpl.
    now rewrite lookup_insert_eq.
  - intros. eexists. split; [apply lookup_snoc |]. simpl. now rewrite lookup_insert_eq.
  - intros other N. unfold st'. simpl. now apply lookup_insert_ne.
Qed.

(** [Logger.setLevel] changes the threshold of that logger only: its
    [isEnabledFor] then answers against the new level, or against the
    process-wide default when the new level is [NOTSET]; its name and
    handlers and all other loggers are untouched. *)
Theorem Logger_setLevel_takes_effect (self : loc) (L : Logger) (level : Z) (st : State) :
  heap_loggers st !! self = Some L ->
  let st' := snd (Logger_setLevel self level st) in
  fst (Logger_setLevel self level st) = Ok tt /\
  heap_loggers st' !! self = Some (mkLogger (Logger_name L) level (Logger_handlers L)) /\
  (forall s, Logger_isEnabledFor self s st' =
             (Ok (effective_threshold level st <=? s), st')) /\
  (forall other, other <> self -> heap_loggers st' !! other = heap_loggers st !! other) /\
  _level st' = _level st.
Proof.
  intros EL st'.
  assert (E : Logger_setLevel self level st =
              (Ok tt, set_heap_loggers
                        (fun h => <[self := mkLogger (Logger_name L) level
                                                     (Logger_handlers L)]> h) st)).
  { unfold Logger_setLevel, update_logger. now rewrite (bind_the_logger _ _ _ _ EL). }
  unfold st'. rewrite E. simpl.
  assert (E' : <[self := mkLogger (Logger_name L) level (Logger_handlers L)]>
                 (heap_loggers st) !! self
               = Some (mkLogger (Logger_name L) level (Logger_handlers L))).
  { apply list_lookup_insert_eq. eapply lookup_lt_Some; exact EL. }
  split; [reflexivity |]. split; [exact E' |]. split; [| split].
  - intros s. unfold Logger_isEnabledFor.
    erewrite bind_the_logger by exact E'.
    unfold bind, get, ret. simpl. rewrite int_or_threshold.
    now rewrite Z.geb_leb.
  - intros other N. now apply list_lookup_insert_ne.
  - reflexivity.
Qed.

(** [Logger.addHandler] appends to the handler list, creating it on the
    first call and not looking for duplicates; a later accepted [log] that
    returns has called [handle] on the old handlers in their order and on
    the new one last. *)
Theorem Logger_addHandler_appends (self : loc) (L : Logger) (hdlr : loc) (st : State) :
  heap_loggers st !! self = Some L ->
  let st' := snd (Logger_addHandler self hdlr st) in
  let hdlrs := default [] (Logger_handlers L) ++ [hdlr] in
  fst (Logger_addHandler self hdlr st) = Ok tt /\
  heap_loggers st' !! self =
    Some (mkLogger (Logger_name L) (Logger_level L) (Some hdlrs)) /\
  (forall other, other <> self -> heap_loggers st' !! other = heap_loggers st !! other) /\
  (forall level msg args module,
     effective_threshold (Logger_level L) st <= level ->
     fst (Logger_log self level msg args module st') = Ok tt ->
     exists evs,
       trace (snd (Logger_log self level msg args module st')) = trace st ++ evs /\
       handled evs = hdlrs).
Proof.
  intros EL st' hdlrs.
  assert (E : Logger_addHandler self hdlr st =
              (Ok tt, set_heap_loggers
                        (fun h => <[self := mkLogger (Logger_name L) (Logger_level L)
                                                     (Some hdlrs)]> h) st)).
  { unfold Logger_addHandler, update_logger. rewrite (bind_the_logger _ _ _ _ EL).
    unfold hdlrs. now destruct (Logger_handlers L). }
  unfold st'. rewrite E. simpl.
  assert (E' : <[self := mkLogger (Logger_name L) (Logger_level L) (Some hdlrs)]>
                 (heap_loggers st) !! self
               = Some (mkLogger (Logger_name L) (Logger_level L) (Some hdlrs))).
  { apply list_lookup_insert_eq. eapply lookup_lt_Some; exact EL. }
  split; [reflexivity |]. split; [exact E' |]. split.
  - intros other N. now apply list_lookup_insert_ne.
  - intros level msg args module Hge.
    rewrite Logger_log_cases. simpl heap_loggers. rewrite E'. simpl Logger_level.
    rewrite int_or_threshold.
    change (effective_threshold (Logger_level L) _)
      with (effective_threshold (Logger_level L) st).
    destruct (Z.geb_spec level (effective_threshold (Logger_level L) st)); [| lia].
    simpl Logger_handlers. change (default [] (Some hdlrs)) with hdlrs.
    match goal with
    | |- fst (for_hdlr _ ?n ?s) = _ -> _ =>
        destruct (for_hdlr_handled hdlrs n s) as (_ & evs & T & Hh)
    end.
    intros EOk. rewrite EOk in Hh. exists evs. split; [exact T | exact Hh].
Qed.

(** ** Delivery to the sinks *)

Lemma only_record_handlers record st st' :
  only_record record st st' -> heap_handlers st' = heap_handlers st.
Proof. now intros (_ & _ & _ & _ & _ & E & _). Qed.

(** What [emit] does once the sink is open, in terms of what [format]
    does: the text and the terminator go to the sink in one write, after
    the formatting; a file sink is flushed after the write has succeeded. *)
Lemma emit_after_format self record H k terminator st :
  heap_handlers st !! self = Some H ->
  (exists _stream, Handler_class H = StreamHandler _stream terminator /\
                   k = ToStream _stream) \/
  (exists _addr, Handler_class H = UDPHandler _addr terminator /\ k = ToSocket _addr) \/
  (exists filename mode encoding delay,
     Handler_class H = FileHandler filename mode encoding delay terminator true /\
     k = ToFile filename) ->
  Handler_emit self record st =
  match Formatter_format (Handler_formatter H) record st with
  | (Raise e, st1) => (Raise e, st1)
  | (Ok text, st1) =>
      let st2 := set_trace (fun t => t ++ [EvWrite k (text +:+ terminator)]) st1 in
      match sink_write k (text +:+ terminator) with
      | Fails cls detail => (Raise (Builtin cls detail), st2)
      | Returns _ =>
          match k with
          | ToFile filename =>
              (Ok tt, set_trace (fun t => t ++ [EvFlush filename]) st2)
          | _ => (Ok tt, st2)
          end
      end
  end.
Proof.
  intros EH Hc. unfold Handler_emit. rewrite (bind_the_handler _ _ _ _ EH).
  destruct Hc as [(s & -> & ->) | [(a & -> & ->) | (fn & mode & enc & delay & -> & ->)]].
  - unfold bind at 1.
    destruct (Formatter_format (Handler_formatter H) record st) as [[text | e] st1];
      [| reflexivity].
    unfold write, bind, tell, modify, builtin, lift.
    destruct (sink_write (ToStream s) (text +:+ terminator)) as [[] | cls d]; reflexivity.
  - unfold bind at 1.
    destruct (Formatter_format (Handler_formatter H) record st) as [[text | e] st1];
      [| reflexivity].
    unfold write, bind, tell, modify, builtin, lift.
    destruct (sink_write (ToSocket a) (text +:+ terminator)) as [[] | cls d]; reflexivity.
  - simpl negb. cbv iota. unfold bind at 1, ret at 1. unfold bind at 1.
    destruct (Formatter_format (Handler_formatter H) record st) as [[text | e] st1];
      [| reflexivity].
    unfold write, bind, tell, modify, builtin, lift.
    destruct (sink_write (ToFile fn) (text +:+ terminator)) as [[] | cls d]; reflexivity.
Qed.


Lemma emit_opened_file self record H filename mode encoding delay terminator st :
  heap_handlers st !! self = Some H ->
  Handler_class H = FileHandler filename mode encoding delay terminator true ->
  heap_handlers (snd (Handler_emit self record st)) = heap_handlers st /\
  exists evs, trace (snd (Handler_emit self record st)) = trace st ++ evs /\
              Forall not_open evs.
Proof.
  intros EH EC.
  rewrite (emit_after_format self record H (ToFile filename) terminator st EH)
    by (right; right; now exists filename, mode, encoding, delay).
  pose proof (Formatter_format_only_record (Handler_formatter H) record st) as Ho.
  destruct (Formatter_format_quiet not_open (Handler_formatter H) record
              (fun _ => I) st) as (_ & _ & _ & _ & _ & _ & _ & _ & _ & evs & T & F).
  apply only_record_handlers in Ho.
  destruct (Formatter_format (Handler_formatter H) record st) as [[text | e] st1];
    simpl in *.
  - destruct (sink_write (ToFile filename) (text +:+ terminator)) as [[] | cls d]; simpl.
    + split; [exact Ho |].
      exists (evs ++ [EvWrite (ToFile filename) (text +:+ terminator); EvFlush filename]).
      split; [rewrite T; now rewrite <- !app_assoc |].
      apply Forall_app. split; [exact F | now repeat constructor].
    + split; [exact Ho |].
      exists (evs ++ [EvWrite (ToFile filename) (text +:+ terminator)]).
      split; [rewrite T; now rewrite <- !app_assoc |].
      apply Forall_app. split; [exact F | now repeat constructor].
  - split; [exact Ho |]. now exists evs.
Qed.

(** A file handler that is not open yet opens its file at the start of
    [emit], before anything is formatted.  If the opening fails, [emit]
    fails with that error and nothing is formatted or written.  If it
    succeeds the handler is marked open whatever happens next, [emit]
    goes on as for an open handler, and no later [emit] on this handler
    opens the file again. *)
Theorem FileHandler_emit_opens_once (self record : loc) (H : Handler)
    (filename mode : string) (encoding : value) (delay : bool) (terminator : string)
    (st : State) :
  heap_handlers st !! self = Some H ->
  Handler_class H = FileHandler filename mode encoding delay terminator false ->
  let out := Handler_emit self record st in
  let st1 := set_trace (fun t => t ++ [EvOpen filename mode]) st in
  match open_file filename mode with
  | Fails cls detail => out = (Raise (Builtin cls detail), st1)
  | Returns _ =>
      out = Handler_emit self record
              (set_heap_handlers (fun h => <[self := mark_open H]> h) st1) /\
      heap_handlers (snd out) !! self = Some (mark_open H) /\
      forall record2,
        exists evs,
          trace (snd (Handler_emit self record2 (snd out))) = trace (snd out) ++ evs /\
          Forall not_open evs
  end.
Proof.
  intros EH EC out st1.
  set (st2 := set_heap_handlers (fun h => <[self := mark_open H]> h) st1).
  assert (EH2 : heap_handlers st2 !! self = Some (mark_open H)).
  { simpl. apply list_lookup_insert_eq. eapply lookup_lt_Some; exact EH. }
  assert (EC2 : Handler_class (mark_open H) =
                FileHandler filename mode encoding delay terminator true).
  { unfold mark_open. now rewrite EC. }
  assert (EF2 : Handler_formatter (mark_open H) = Handler_formatter H).
  { unfold mark_open. now rewrite EC. }
  assert (E : out = match open_file filename mode with
                    | Fails cls detail => (Raise (Builtin cls detail), st1)
                    | Returns _ => Handler_emit self record st2
                    end).
  { unfold out, Handler_emit at 1. rewrite (bind_the_handler _ _ _ _ EH). rewrite EC.
    simpl negb. cbv iota. unfold open_into.
    rewrite !bind_assoc. unfold bind at 1, tell at 1, modify at 1. cbv beta iota.
    fold st1. rewrite !bind_assoc. unfold bind at 1, builtin at 1, lift at 1.
    destruct (open_file filename mode) as [[] | cls d]; [| reflexivity].
    simpl of_builtin. cbv beta iota.
    assert (EU : update_handler self mark_open st1 = (Ok tt, st2)).
    { unfold update_handler. now rewrite (bind_the_handler _ _ st1 H) by exact EH. }
    rewrite (bind_Ok _ _ _ _ _ EU).
    unfold Handler_emit. rewrite (bind_the_handler _ _ _ _ EH2). rewrite EC2, EF2.
    simpl negb. cbv iota. unfold bind at 3, ret at 1. reflexivity. }
  rewrite E. destruct (open_file filename mode) as [[] | cls d]; [| reflexivity].
  split; [reflexivity |].
  destruct (emit_opened_file self record (mark_open H) filename mode encoding delay
              terminator st2 EH2 EC2) as (Hh & _).
  assert (EH3 : heap_handlers (snd (Handler_emit self record st2)) !! self
                = Some (mark_open H)) by (rewrite Hh; exact EH2).
  split; [exact EH3 |].
  intros record2.
  exact (proj2 (emit_opened_file self record2 (mark_open H) filename mode encoding delay
                  terminator _ EH3 EC2)).
Qed.

Lemma FileHandler_init_cases filename formatter level mode encoding delay st :
  let self := length (heap_handlers st) in
  let H := mkHandler (default default_formatter formatter) level
             (FileHandler filename mode encoding delay newline false) in
  FileHandler_init filename formatter level mode encoding delay st =
  if delay
  then (Ok self, set_heap_handlers (fun h => h ++ [H]) st)
  else
    match open_file filename mode with
    | Returns _ =>
        (Ok self,
         set_heap_handlers (fun h => h ++ [mark_open H])
           (set_trace (fun t => t ++ [EvOpen filename mode]) st))
    | Fails cls detail =>
        (Raise (Builtin cls detail),
         set_trace (fun t => t ++ [EvOpen filename mode])
           (set_heap_handlers (fun h => h ++ [H]) st))
    end.
Proof.
  intros self H. unfold FileHandler_init, Handler_init.
  assert (EF : (match formatter with
                | Some f => ret f
                | None => lift (Formatter_init None None "%" None)
                end) st = (Ok (default default_formatter formatter), st))
    by now destruct formatter.
  rewrite !bind_assoc. rewrite (bind_Ok _ _ _ _ _ EF).
  unfold bind at 1, alloc_handler. cbv beta iota. fold self. fold H.
  destruct delay.
  - reflexivity.
  - simpl negb. cbv iota.
    set (st1 := set_heap_handlers (fun h => h ++ [H]) st).
    unfold open_into. rewrite !bind_assoc.
    unfold bind at 1, tell at 1, modify at 1. cbv beta iota.
    rewrite !bind_assoc. unfold bind at 1, builtin at 1, lift at 1.
    destruct (open_file filename mode) as [[] | cls d]; [| reflexivity].
    simpl of_builtin. cbv beta iota.
    change (set_trace (fun t => t ++ [EvOpen filename mode]) st1)
      with (set_heap_handlers (fun h => h ++ [H])
              (set_trace (fun t => t ++ [EvOpen filename mode]) st)).
    change self with (length (heap_handlers
                                (set_trace (fun t => t ++ [EvOpen filename mode]) st))).
    unfold bind at 1. rewrite update_handler_new. reflexivity.
Qed.

(** [FileHandler(filename, delay=...)]: with [delay] the file is not
    touched at construction; without it the file is opened at once, and a
    failure to open it is the failure of the constructor. *)
Theorem FileHandler_init_delay (filename : string) (formatter : Formatter) (level : Z)
    (mode : string) (encoding : value) (delay : bool) (st : State) :
  let out := FileHandler_init filename (Some formatter) level mode encoding delay st in
  let self := length (heap_handlers st) in
  let H := mkHandler formatter level
             (FileHandler filename mode encoding delay newline false) in
  if delay
  then out = (Ok self, set_heap_handlers (fun h => h ++ [H]) st)
  else
    match open_file filename mode with
    | Returns _ =>
        out = (Ok self,
               set_heap_handlers (fun h => h ++ [mark_open H])
                 (set_trace (fun t => t ++ [EvOpen filename mode]) st))
    | Fails cls detail =>
        fst out = Raise (Builtin cls detail) /\
        trace (snd out) = trace st ++ [EvOpen filename mode]
    end.
Proof.
  intros out self H. unfold out. rewrite FileHandler_init_cases.
  destruct delay; [reflexivity |].
  destruct (open_file filename mode) as [[] | cls d]; [reflexivity | now split].
Qed.

(** ** The registry of loggers *)

#[export] Instance ok_step_preorder : PreOrder ok_step.
Proof. split; [now intros st | intros st1 st2 st3 H1 H2 H; auto]. Qed.

Lemma same_view_ok st st' :
  root st' = root st -> _loggers st' = _loggers st ->
  heap_loggers st' = heap_loggers st -> ok_step st st'.
Proof.
  intros E1 E2 E3 (A & r & L & B1 & B2 & B3 & B4). split.
  - intros n l E. rewrite E2 in E. rewrite E3. now apply A.
  - exists r, L. rewrite E1, E2, E3. auto.
Qed.

Lemma runs_ok_quiet Q {A} (m : M A) : runs_quiet Q m -> runs ok_step m.
Proof.
  intros Hq st. destruct (Hq st) as (_ & _ & A3 & A4 & A5 & _).
  now apply same_view_ok.
Qed.

Lemma runs_ok_modify f :
  (forall st, root (f st) = root st /\ _loggers (f st) = _loggers st /\
              heap_loggers (f st) = heap_loggers st) ->
  runs ok_step (modify f).
Proof. intros Hf st. destruct (Hf st) as (A1 & A2 & A3). now apply same_view_ok. Qed.

Lemma runs_ok_alloc_handler H : runs ok_step (alloc_handler H).
Proof. intros st. now apply same_view_ok. Qed.

Lemma runs_ok_alloc_record R : runs ok_step (alloc_record R).
Proof. intros st. now apply same_view_ok. Qed.

Lemma runs_ok_update_logger l f :
  (forall L, Logger_name (f L) = Logger_name L /\
             (Logger_handlers L <> None -> Logger_handlers (f L) <> None)) ->
  runs ok_step (update_logger l f).
Proof.
  intros Hf st. unfold update_logger.
  destruct (heap_loggers st !! l) as [L0 |] eqn:E.
  2:{ unfold bind, the_logger, deref. rewrite E. simpl. reflexivity. }
  rewrite (bind_the_logger _ _ _ _ E). unfold modify. simpl.
  assert (Hl : (l < length (heap_loggers st))%nat) by (eapply lookup_lt_Some; exact E).
  intros (A & r & L & B1 & B2 & B3 & B4). split; simpl.
  - intros n l' En. destruct (A n l' En) as (L' & E' & N').
    destruct (decide (l = l')) as [<- | N].
    + exists (f L0). split; [now apply list_lookup_insert_eq |].
      pose proof (eq_trans (eq_sym E) E') as X. inversion X; subst.
      apply Hf.
    + exists L'. split; [now rewrite list_lookup_insert_ne | exact N'].
  - destruct (decide (l = r)) as [<- | N].
    + exists l, (f L0). repeat split; auto.
      * now apply list_lookup_insert_eq.
      * pose proof (eq_trans (eq_sym E) B3) as X. inversion X; subst. now apply Hf.
    + exists r, L. repeat split; auto. now rewrite list_lookup_insert_ne.
Qed.

Lemma runs_ok_getLogger name : runs ok_step (getLogger name).
Proof.
  intros st.
  destruct (_loggers st !! default "root" name) as [l |] eqn:E.
  - rewrite (getLogger_registered _ _ _ E). reflexivity.
  - rewrite (getLogger_new _ _ E).
    unfold set_loggers, set_heap_loggers, set_heap_handlers. cbn [snd].
    intros (A & r & L & B1 & B2 & B3 & B4). split; cbn [_loggers heap_loggers root].
    + intros n l.
      destruct (decide (default "root" name = n)) as [<- | N].
      * rewrite lookup_insert_eq. intros X. inversion X; subst.
        eexists. split; [apply lookup_snoc | reflexivity].
      * rewrite lookup_insert_ne by exact N. intros En.
        destruct (A n l En) as (L' & E' & N'). exists L'.
        split; [now apply lookup_app_l_Some | exact N'].
    + exists r, L. repeat split; auto.
      * rewrite lookup_insert_ne; [exact B2 | congruence].
      * now apply lookup_app_l_Some.
Qed.

Lemma runs_ok_Handler_init class formatter level :
  runs ok_step (Handler_init class formatter level).
Proof.
  unfold Handler_init. apply runs_bind; [typeclasses eauto | |].
  - destruct formatter; intros st; simpl; reflexivity.
  - intros f. apply runs_ok_alloc_handler.
Qed.

Lemma runs_ok_Logger_log self level msg args module :
  runs ok_step (Logger_log self level msg args module).
Proof.
  intros st. rewrite Logger_log_cases.
  destruct (heap_loggers st !! self) as [L |]; [| simpl; reflexivity].
  destruct (level >=? _); [| simpl; reflexivity].
  etransitivity; [| eapply (runs_ok_quiet (fun _ => True)); intros st0; apply for_hdlr_handled].
  now apply same_view_ok.
Qed.

Lemma runs_ok_Logger_exc self e msg args module :
  runs ok_step (Logger_exc self e msg args module).
Proof.
  unfold Logger_exc. apply runs_bind; [typeclasses eauto | |].
  - intros st. simpl. reflexivity.
  - intros buf. apply runs_ok_Logger_log.
Qed.

Lemma runs_ok_Logger_exception self msg args module :
  runs ok_step (Logger_exception self msg args module).
Proof.
  unfold Logger_exception. apply runs_bind; [typeclasses eauto | |].
  - intros st. simpl. reflexivity.
  - intros st0. apply runs_ok_Logger_exc.
Qed.

Lemma runs_ok_Logger_addHandler self hdlr : runs ok_step (Logger_addHandler self hdlr).
Proof.
  unfold Logger_addHandler. apply runs_ok_update_logger.
  intros L. split; [reflexivity | discriminate].
Qed.

Lemma runs_ok_FileHandler_init filename formatter level mode encoding delay :
  runs ok_step (FileHandler_init filename formatter level mode encoding delay).
Proof.
  unfold FileHandler_init.
  apply runs_bind; [typeclasses eauto | apply runs_ok_Handler_init |]. intros h.
  apply runs_bind; [typeclasses eauto | | intros _; apply runs_ret; typeclasses eauto].
  destruct (negb delay); [| apply runs_ret; typeclasses eauto].
  apply (runs_ok_quiet not_handle). apply open_into_quiet.
Qed.

Lemma runs_ok_basicConfig level filename stream format style :
  runs ok_step (basicConfig level filename stream format style).
Proof.
  unfold basicConfig.
  apply runs_bind; [typeclasses eauto | now apply runs_ok_modify |]. intros _.
  apply runs_bind; [typeclasses eauto | |].
  { destruct filename as [[| c s] |];
      first [ apply runs_ok_FileHandler_init
            | unfold StreamHandler_init; apply runs_ok_Handler_init ]. }
  intros h. apply runs_bind; [typeclasses eauto | intros st; simpl; reflexivity |].
  intros f. apply runs_bind; [typeclasses eauto | |].
  { apply (runs_ok_quiet (fun _ => True)). unfold Handler_setFormatter. auto with quiet. }
  intros _. apply runs_bind; [typeclasses eauto | intros st; simpl; reflexivity |].
  intros st0. destruct (root st0) as [r |]; [| intros st; simpl; reflexivity].
  apply runs_bind; [typeclasses eauto | |].
  { apply (runs_ok_quiet (fun _ => True)). auto with quiet. }
  intros R. destruct (Logger_handlers R); [| intros st; simpl; reflexivity].
  apply runs_bind; [typeclasses eauto | |].
  { apply runs_ok_update_logger. intros L. split; [reflexivity | discriminate]. }
  intros _. apply runs_ok_Logger_addHandler.
Qed.

Lemma runs_ok_run {A} (c : call A) : runs ok_step (run c).
Proof.
  destruct c; simpl;
    unfold info, debug, warning, error, critical, exception,
           Logger_info, Logger_debug, Logger_warning, Logger_error, Logger_critical;
    try (apply runs_bind; [typeclasses eauto | apply runs_ok_getLogger | intros ?]);
    first
      [ apply runs_ok_getLogger
      | apply runs_ok_basicConfig
      | apply runs_ok_Logger_log
      | apply runs_ok_Logger_exc
      | apply runs_ok_Logger_exception
      | apply runs_ok_Logger_addHandler
      | apply runs_ok_Handler_init
      | apply runs_ok_FileHandler_init
      | apply (runs_ok_quiet not_handle); apply Handler_handle_quiet
      | apply (runs_ok_quiet not_handle); apply Handler_emit_quiet
      | apply (runs_ok_quiet (fun _ => True));
        apply Formatter_format_quiet; now intros
      | idtac ].
  - now apply runs_ok_modify.
  - apply runs_ok_update_logger. intros L. now split.
  - apply (runs_ok_quiet (fun _ => True)). unfold Logger_isEnabledFor. quiet_steps.
  - apply (runs_ok_quiet (fun _ => True)). unfold Handler_setFormatter. auto with quiet.
  - apply (runs_ok_quiet (fun _ => True)). unfold Handler_setLevel. auto with quiet.
  - unfold LogRecord_init.
    apply runs_bind; [typeclasses eauto | intros st; simpl; reflexivity |].
    intros st0. apply runs_ok_alloc_record.
Qed.

Lemma reachable_registry_ok st : reachable st -> registry_ok st.
Proof.
  induction 1 as [now exc | st A c _ IH | st now exc _ IH].
  - split.
    + intros n l E. vm_compute in E.
      destruct (decide (n = "root")) as [-> | N].
      * vm_compute in E. inversion E; subst. eexists. split; reflexivity.
      * exfalso. change (_loggers (imported now exc) !! n = Some l) in E.
        change (_loggers (imported now exc)) with (<["root" := 0%nat]> (∅ : gmap string loc)) in E.
        rewrite lookup_insert_ne in E by congruence. now rewrite lookup_empty in E.
    + exists 0%nat. eexists. repeat split. discriminate.
  - now apply (runs_ok_run c st).
  - destruct IH as (A & r & L & B). split; [exact A | now exists r, L].
Qed.

(** In every state a program reaches, a registered name denotes a logger
    that carries this name, so two names never share a logger; in
    particular the logger [getLogger] returns for the empty name is not
    the root logger.  [getLogger] always returns a registered logger and
    the root logger always has a handler list. *)
Theorem reachable_registry_named (st : State) :
  reachable st ->
  (forall n l, _loggers st !! n = Some l ->
     exists L, heap_loggers st !! l = Some L /\ Logger_name L = n) /\
  (forall n1 n2 l, _loggers st !! n1 = Some l -> _loggers st !! n2 = Some l -> n1 = n2) /\
  (forall name l st', getLogger name st = (Ok l, st') ->
     exists L, _loggers st' !! default "root" name = Some l /\
               heap_loggers st' !! l = Some L /\ Logger_name L = default "root" name) /\
  (forall l st', getLogger (Some "") st = (Ok l, st') -> root st' <> Some l) /\
  (exists r L, root st = Some r /\ heap_loggers st !! r = Some L /\
               Logger_name L = "root" /\ Logger_handlers L <> None).
Proof.
  intros Hr. pose proof (reachable_registry_ok st Hr) as Hok.
  pose proof Hok as (A & r & L & B1 & B2 & B3 & B4).
  assert (Inj : forall st0, registry_ok st0 -> forall n1 n2 l,
            _loggers st0 !! n1 = Some l -> _loggers st0 !! n2 = Some l -> n1 = n2).
  { intros st0 (A0 & _) n1 n2 l E1 E2.
    destruct (A0 n1 l E1) as (L1 & H1 & N1). destruct (A0 n2 l E2) as (L2 & H2 & N2).
    pose proof (eq_trans (eq_sym H1) H2) as X. inversion X; subst. reflexivity. }
  assert (G : forall name l st', getLogger name st = (Ok l, st') ->
            registry_ok st' /\ _loggers st' !! default "root" name = Some l).
  { intros name l st' E. split.
    - pose proof (reachable_registry_ok _ (reachable_call st (call_getLogger name) Hr)) as K.
      simpl in K. now rewrite E in K.
    - destruct (_loggers st !! default "root" name) as [l0 |] eqn:E0.
      + rewrite (getLogger_registered _ _ _ E0) in E. inversion E; subst. exact E0.
      + rewrite (getLogger_new _ _ E0) in E. inversion E; subst. simpl.
        apply lookup_insert_eq. }
  split; [exact A |]. split; [exact (Inj st Hok) |]. split; [| split].
  - intros name l st' E. destruct (G name l st' E) as ((A' & _) & E').
    destruct (A' _ _ E') as (L' & H' & N'). now exists L'.
  - intros l st' E. destruct (G (Some "") l st' E) as (K & E').
    pose proof K as (A' & r' & L' & C1 & C2 & _). rewrite C1. intros X.
    inversion X; subst.
    pose proof (Inj st' K _ _ _ E' C2) as N. discriminate.
  - exists r, L. repeat split; auto. destruct (A _ _ B2) as (L0 & H0 & N0).
    pose proof (eq_trans (eq_sym B3) H0) as X. inversion X; subst. exact N0.
Qed.

(** ** [basicConfig] *)

Lemma update_logger_Some st l L f :
  heap_loggers st !! l = Some L ->
  update_logger l f st = (Ok tt, set_heap_loggers (fun h => <[l := f L]> h) st).
Proof. intros E. unfold update_logger. now rewrite (bind_the_logger _ _ _ _ E). Qed.

Lemma update_handler_Some st l H f :
  heap_handlers st !! l = Some H ->
  update_handler l f st = (Ok tt, set_heap_handlers (fun h => <[l := f H]> h) st).
Proof. intros E. unfold update_handler. now rewrite (bind_the_handler _ _ _ _ E). Qed.

(** [basicConfig] up to the construction of the formatter. *)
Lemma basicConfig_cases level filename stream format style st :
  basicConfig level filename stream format style st =
  match match filename with
        | Some (String c s) => FileHandler_init (String c s) None NOTSET "a" VNone false
        | _ => StreamHandler_init None NOTSET None
        end (set_level level st) with
  | (Raise e, st2) => (Raise e, st2)
  | (Ok h, st2) =>
      match Formatter_init format None style None with
      | Raise e => (Raise e, st2)
      | Ok f =>
          (Handler_setFormatter h f ;;
           st <- get ;;
           match root st with
           | None => raise (Builtin "NameError" "name 'root' isn't defined")
           | Some r =>
               R <- the_logger r ;;
               match Logger_handlers R with
               | None => raise (Builtin "AttributeError"
                                  "'NoneType' object has no attribute 'clear'")
               | Some _ =>
                   update_logger r (fun L => mkLogger (Logger_name L) (Logger_level L)
                                                      (Some [])) ;;
                   Logger_addHandler r h
               end
           end) st2
      end
  end.
Proof.
  unfold basicConfig. unfold bind at 1, modify at 1. cbv beta iota.
  unfold bind at 1.
  destruct (match filename with
            | Some (String c s) => FileHandler_init (String c s) None NOTSET "a" VNone false
            | _ => StreamHandler_init None NOTSET None
            end (set_level level st)) as [[h | e] st2]; [| reflexivity].
  unfold bind at 1, lift at 1.
  destruct (Formatter_init format None style None); reflexivity.
Qed.

(** The rest of [basicConfig], once the handler [h] exists. *)
Lemma basicConfig_installs h f H0 r L hdlrs st2 :
  heap_handlers st2 !! h = Some H0 ->
  root st2 = Some r ->
  heap_loggers st2 !! r = Some L ->
  Logger_handlers L = Some hdlrs ->
  (Handler_setFormatter h f ;;
   st <- get ;;
   match root st with
   | None => raise (Builtin "NameError" "name 'root' isn't defined")
   | Some r =>
       R <- the_logger r ;;
       match Logger_handlers R with
       | None => raise (Builtin "AttributeError"
                          "'NoneType' object has no attribute 'clear'")
       | Some _ =>
           update_logger r (fun L => mkLogger (Logger_name L) (Logger_level L)
                                              (Some [])) ;;
           Logger_addHandler r h
       end
   end) st2 =
  (Ok tt,
   set_heap_loggers
     (fun l => <[r := mkLogger (Logger_name L) (Logger_level L) (Some [h])]> l)
     (set_heap_handlers
        (fun l => <[h := mkHandler f (Handler_level H0) (Handler_class H0)]> l) st2)).
Proof.
  intros EH ER EL EHs.
  unfold Handler_setFormatter. rewrite (bind_Ok _ _ _ _ _ (update_handler_Some _ _ _ _ EH)).
  set (st3 := set_heap_handlers _ st2).
  unfold bind at 1, get. cbv beta iota.
  change (root st3) with (root st2). rewrite ER.
  rewrite (bind_the_logger _ _ st3 L) by exact EL. rewrite EHs.
  rewrite (bind_Ok _ _ _ _ _ (update_logger_Some st3 r L _ EL)).
  set (st4 := set_heap_loggers _ st3).
  assert (E4 : heap_loggers st4 !! r = Some (mkLogger (Logger_name L) (Logger_level L)
                                                      (Some []))).
  { unfold st4. simpl. apply list_lookup_insert_eq. eapply lookup_lt_Some; exact EL. }
  unfold Logger_addHandler. rewrite (update_logger_Some st4 r _ _ E4).
  unfold st4, set_heap_loggers. simpl. now rewrite list_insert_insert_eq.
Qed.

(** [basicConfig] without a file name.  The process-wide threshold is set
    first and stays set even when the style is then rejected; with a valid
    style the root logger's handlers are replaced by one new
    [StreamHandler] carrying [Formatter(format, style=style)].  That
    handler writes to [sys.stderr] whatever [stream] was passed. *)
Theorem basicConfig_stream (level : Z) (filename : option string)
    (stream : option stream) (format : option string) (style : string) (st : State) :
  reachable st ->
  filename = None \/ filename = Some "" ->
  let out := basicConfig level filename stream format style st in
  let h := length (heap_handlers st) in
  _level (snd out) = level /\
  match Formatter_init format None style None with
  | Raise e => fst out = Raise e /\ heap_loggers (snd out) = heap_loggers st
  | Ok f =>
      fst out = Ok tt /\
      heap_handlers (snd out) =
        heap_handlers st ++ [mkHandler f NOTSET (StreamHandler sys_stderr newline)] /\
      exists r L,
        root st = Some r /\ heap_loggers st !! r = Some L /\
        heap_loggers (snd out) =
          <[r := mkLogger (Logger_name L) (Logger_level L) (Some [h])]> (heap_loggers st)
  end.
Proof.
  intros Hr Hf out h.
  destruct (reachable_registry_ok st Hr) as (_ & r & L & B1 & _ & B3 & B4).
  destruct (Logger_handlers L) as [hdlrs |] eqn:EHs; [| contradiction].
  set (st2 := set_heap_handlers (fun l => l ++ [default_handler]) (set_level level st)).
  assert (E : out = match Formatter_init format None style None with
                    | Raise e => (Raise e, st2)
                    | Ok f =>
                        (Ok tt,
                         set_heap_loggers
                           (fun l => <[r := mkLogger (Logger_name L) (Logger_level L)
                                                     (Some [h])]> l)
                           (set_heap_handlers
                              (fun l => <[h := mkHandler f NOTSET
                                                 (StreamHandler sys_stderr newline)]> l)
                              st2))
                    end).
  { unfold out. rewrite basicConfig_cases.
    assert (EI : match filename with
                 | Some (String c s) =>
                     FileHandler_init (String c s) None NOTSET "a" VNone false
                 | _ => StreamHandler_init None NOTSET None
                 end (set_level level st) = (Ok h, st2))
      by (destruct Hf as [-> | ->]; reflexivity).
    rewrite EI. destruct (Formatter_init format None style None) as [f | e];
      [| reflexivity].
    apply (basicConfig_installs h f default_handler r L hdlrs st2);
      [apply lookup_snoc | exact B1 | exact B3 | exact EHs]. }
  rewrite E. destruct (Formatter_init format None style None) as [f | e]; simpl.
  - split; [reflexivity |]. split; [reflexivity |]. split.
    + apply insert_snoc.
    + now exists r, L.
  - split; [reflexivity | now split].
Qed.

(** [basicConfig] with a file name.  The threshold is set, then the file
    is opened for appending; a failure to open it, or a rejected style
    after it has been opened, is raised with the root logger's handlers
    as they were; otherwise the root logger's handlers are replaced by one
    new, opened [FileHandler] carrying [Formatter(format, style=style)]. *)
Theorem basicConfig_file (level : Z) (c : ascii) (s : string) (stream : option stream)
    (format : option string) (style : string) (st : State) :
  reachable st ->
  let filename := String c s in
  let out := basicConfig level (Some filename) stream format style st in
  let h := length (heap_handlers st) in
  _level (snd out) = level /\
  trace (snd out) = trace st ++ [EvOpen filename "a"] /\
  match open_file filename "a" with
  | Fails cls detail =>
      fst out = Raise (Builtin cls detail) /\ heap_loggers (snd out) = heap_loggers st
  | Returns _ =>
      match Formatter_init format None style None with
      | Raise e => fst out = Raise e /\ heap_loggers (snd out) = heap_loggers st
      | Ok f =>
          fst out = Ok tt /\
          heap_handlers (snd out) =
            heap_handlers st ++
              [mkHandler f NOTSET (FileHandler filename "a" VNone false newline true)] /\
          exists r L,
            root st = Some r /\ heap_loggers st !! r = Some L /\
            heap_loggers (snd out) =
              <[r := mkLogger (Logger_name L) (Logger_level L) (Some [h])]>
                (heap_loggers st)
      end
  end.
Proof.
  intros Hr filename out h.
  destruct (reachable_registry_ok st Hr) as (_ & r & L & B1 & _ & B3 & B4).
  destruct (Logger_handlers L) as [hdlrs |] eqn:EHs; [| contradiction].
  unfold out. rewrite basicConfig_cases. unfold filename. cbv beta iota.
  rewrite FileHandler_init_cases. fold filename.
  simpl default. cbv zeta.
  destruct (open_file filename "a") as [[] | cls d].
  2:{ simpl. repeat split. }
  set (H0 := mark_open (mkHandler default_formatter NOTSET
                          (FileHandler filename "a" VNone false newline false))).
  set (st2 := set_heap_handlers (fun l => l ++ [H0])
                (set_trace (fun t => t ++ [EvOpen filename "a"]) (set_level level st))).
  destruct (Formatter_init format None style None) as [f | e].
  2:{ simpl. repeat split. }
  rewrite (basicConfig_installs (length (heap_handlers (set_level level st))) f H0 r L
             hdlrs st2);
    [| apply lookup_snoc | exact B1 | exact B3 | exact EHs].
  simpl. split; [reflexivity |]. split; [reflexivity |]. split; [reflexivity |]. split.
  - apply insert_snoc.
  - now exists r, L.
Qed.

(** ** [Formatter.format] on its own *)

Lemma format_exc_and_render_plain self record R st :
  heap_records st !! record = Some R ->
  LogRecord_exc_info R = VNone ->
  format_exc_and_render self record st = (rendered self R, st).
Proof.
  intros ER EX. unfold format_exc_and_render, rendered.
  rewrite (bind_the_record _ _ _ _ ER). rewrite EX. simpl negb. cbv iota.
  unfold bind at 1, ret at 1. rewrite (bind_the_record _ _ _ _ ER).
  destruct (Formatter_style self =? "%")%string;
    [| destruct (Formatter_style self =? "{")%string]; reflexivity.
Qed.

Lemma set_heap_records_twice f g st :
  set_heap_records f (set_heap_records g st) = set_heap_records (fun h => f (g h)) st.
Proof. reflexivity. Qed.

(** Formatting is repeatable.  When [format] has returned a text for a
    record without exception information, formatting the same record
    again with the same formatter returns the same text and leaves the
    record, with its message and time stamp, as the first call left it. *)
Theorem Formatter_format_repeatable (self : Formatter) (record : loc) (R : LogRecord)
    (text : string) (st : State) :
  heap_records st !! record = Some R ->
  LogRecord_exc_info R = VNone ->
  fst (Formatter_format self record st) = Ok text ->
  let st1 := snd (Formatter_format self record st) in
  fst (Formatter_format self record st1) = Ok text /\
  heap_records (snd (Formatter_format self record st1)) = heap_records st1.
Proof.
  intros ER EX. rewrite (Formatter_format_steps _ _ _ _ ER).
  destruct (str_mod (LogRecord_msg R) (OTuple (LogRecord_args R))) as [message | cls d] eqn:EM;
    [| discriminate].
  cbv zeta.
  set (h1 := <[record := set_message message R]> (heap_records st)).
  assert (Hl : (record < length (heap_records st))%nat) by (eapply lookup_lt_Some; exact ER).
  destruct (truthy (Formatter_usesTime self)) eqn:ET.
  - destruct (Formatter_converter self (LogRecord_created R)) as [ct | cls d] eqn:EC;
      [| discriminate].
    destruct (str_format (Formatter_datefmt self) ct []) as [asctime | cls d] eqn:EA;
      [| discriminate].
    set (R1 := set_asctime asctime (set_message message R)).
    match goal with
    | |- fst (format_exc_and_render _ _ ?s) = _ -> _ => set (st2 := s)
    end.
    assert (E2 : heap_records st2 !! record = Some R1).
    { unfold st2. simpl. apply list_lookup_insert_eq. now rewrite length_insert. }
    rewrite (format_exc_and_render_plain self record R1 st2 E2 EX).
    simpl fst. simpl snd. intros Etext.
    rewrite (Formatter_format_steps _ _ _ _ E2).
    change (LogRecord_msg R1) with (LogRecord_msg R).
    change (LogRecord_args R1) with (LogRecord_args R).
    change (LogRecord_created R1) with (LogRecord_created R).
    rewrite EM, ET, EC, EA. cbv zeta.
    change (set_asctime asctime (set_message message R1)) with R1.
    match goal with
    | |- fst (format_exc_and_render _ _ ?s) = _ /\ _ => set (st3 := s)
    end.
    assert (E3 : heap_records st3 !! record = Some R1).
    { unfold st3. simpl. apply list_lookup_insert_eq. rewrite !length_insert. exact Hl. }
    rewrite (format_exc_and_render_plain self record R1 st3 E3 EX).
    split; [exact Etext |].
    unfold st3, st2. simpl. now rewrite !list_insert_insert_eq.
  - set (R1 := set_message message R).
    match goal with
    | |- fst (format_exc_and_render _ _ ?s) = _ -> _ => set (st2 := s)
    end.
    assert (E2 : heap_records st2 !! record = Some R1).
    { unfold st2. simpl. now apply list_lookup_insert_eq. }
    rewrite (format_exc_and_render_plain self record R1 st2 E2 EX).
    simpl fst. simpl snd. intros Etext.
    rewrite (Formatter_format_steps _ _ _ _ E2).
    change (LogRecord_msg R1) with (LogRecord_msg R).
    change (LogRecord_args R1) with (LogRecord_args R).
    rewrite EM, ET. cbv zeta.
    change (set_message message R1) with R1.
    match goal with
    | |- fst (format_exc_and_render _ _ ?s) = _ /\ _ => set (st3 := s)
    end.
    assert (E3 : heap_records st3 !! record = Some R1).
    { unfold st3. simpl. apply list_lookup_insert_eq. now rewrite length_insert. }
    rewrite (format_exc_and_render_plain self record R1 st3 E3 EX).
    split; [exact Etext |].
    unfold st3, st2. simpl. now rewrite !list_insert_insert_eq.
Qed.

(** [Formatter.format] changes nothing but the event log and, in the
    record it is given, the attributes [message], [asctime] and
    [exc_text]: every attribute set by the constructor, every other
    record, the handlers, the loggers and the globals are as before,
    whether it returns or raises. *)
Theorem Formatter_format_frame (self : Formatter) (record : loc) (st : State) :
  let st' := snd (Formatter_format self record st) in
  (_level_dict st' = _level_dict st /\ _level st' = _level st /\
   _loggers st' = _loggers st /\ root st' = root st /\
   heap_loggers st' = heap_loggers st /\ heap_handlers st' = heap_handlers st) /\
  length (heap_records st') = length (heap_records st) /\
  (forall i, i <> record -> heap_records st' !! i = heap_records st !! i) /\
  (forall R, heap_records st !! record = Some R ->
     exists R', heap_records st' !! record = Some R' /\
                as_constructed R' = as_constructed R).
Proof.
  intros st'.
  destruct (Formatter_format_only_record self record st)
    as (A1 & A2 & A3 & A4 & A5 & A6 & _ & _ & A9 & A10 & A11).
  repeat split; assumption.
Qed.

(** A handler's configuration takes effect on what follows: after
    [setLevel] the handler filters by the new level (or by the
    process-wide default when that level is [NOTSET]), after
    [setFormatter] its formatter is the new one, and in both cases the
    rest of the handler and all other handlers are untouched. *)
Theorem Handler_configuration_takes_effect (self : loc) (H : Handler) (st : State) :
  heap_handlers st !! self = Some H ->
  (forall level,
     let st' := snd (Handler_setLevel self level st) in
     heap_handlers st' !! self =
       Some (mkHandler (Handler_formatter H) level (Handler_class H)) /\
     (forall other, other <> self -> heap_handlers st' !! other = heap_handlers st !! other) /\
     forall record R,
       heap_records st !! record = Some R ->
       LogRecord_levelno R < effective_threshold level st ->
       Handler_handle self record st' = (Ok tt, st')) /\
  (forall fmt,
     let st' := snd (Handler_setFormatter self fmt st) in
     heap_handlers st' !! self = Some (mkHandler fmt (Handler_level H) (Handler_class H)) /\
     (forall other, other <> self -> heap_handlers st' !! other = heap_handlers st !! other)).
Proof.
  intros EH.
  assert (Hl : (self < length (heap_handlers st))%nat) by (eapply lookup_lt_Some; exact EH).
  split.
  - intros level st'. unfold st', Handler_setLevel.
    rewrite (update_handler_Some _ _ _ _ EH). simpl snd.
    assert (E' : heap_handlers
                   (set_heap_handlers
                      (fun h => <[self := mkHandler (Handler_formatter H) level
                                                    (Handler_class H)]> h) st) !! self
                 = Some (mkHandler (Handler_formatter H) level (Handler_class H)))
      by (simpl; now apply list_lookup_insert_eq).
    split; [exact E' |]. split.
    + intros other N. simpl. now apply list_lookup_insert_ne.
    + intros record R ER Hlt.
      exact (Handler_handle_filtered self record _ R _ E' ER Hlt).
  - intros fmt st'. unfold st', Handler_setFormatter.
    rewrite (update_handler_Some _ _ _ _ EH). simpl. split.
    + now apply list_lookup_insert_eq.
    + intros other N. now apply list_lookup_insert_ne.
Qed.




End Further.

Section FurtherRuns.
#[local] Existing Instance small_host.

Lemma Logger_log_handlers_filter_witness :
  Logger_log 0%nat DEBUG "detail" [] None root_at_debug =
  (Ok tt,
   set_trace (fun t => t ++ map (fun h => EvHandle h 0%nat) [0%nat])
     (set_heap_records
        (fun h => h ++ [logged_record root_at_debug "root" DEBUG "detail" [] None])
        root_at_debug)).
Proof.
  refine (Logger_log_handlers_filter 0%nat _ DEBUG "detail" [] None root_at_debug
            eq_refl _ _).
  - vm_compute. discriminate.
  - intros h Hin. apply list_elem_of_singleton in Hin. subst h.
    eexists. split; [reflexivity |]. vm_compute. reflexivity.
Defined.

Lemma Logger_setLevel_takes_effect_witness :
  fst (Logger_setLevel 0%nat DEBUG start) = Ok tt /\
  heap_loggers root_at_debug !! 0%nat = Some (mkLogger "root" DEBUG (Some [0%nat])) /\
  (forall s, Logger_isEnabledFor 0%nat s root_at_debug =
             (Ok (effective_threshold DEBUG start <=? s), root_at_debug)) /\
  (forall other, other <> 0%nat ->
     heap_loggers root_at_debug !! other = heap_loggers start !! other) /\
  _level root_at_debug = _level start.
Proof.
  exact (Logger_setLevel_takes_effect 0%nat _ DEBUG start eq_refl).
Defined.

Lemma Logger_addHandler_appends_witness :
  heap_loggers (snd (Logger_addHandler 0%nat 0%nat start)) !! 0%nat =
  Some (mkLogger "root" NOTSET (Some [0%nat; 0%nat])).
Proof.
  exact (proj1 (proj2 (Logger_addHandler_appends 0%nat _ 0%nat start eq_refl))).
Defined.


Lemma FileHandler_emit_opens_once_witness :
  heap_handlers (snd (Handler_emit 1%nat 0%nat delayed_file)) !! 1%nat =
  Some (mkHandler default_formatter NOTSET
          (FileHandler "app.log" "a" VNone true newline true)).
Proof.
  exact (proj1 (proj2 (FileHandler_emit_opens_once 1%nat 0%nat _ "app.log" "a" VNone
                         true newline delayed_file eq_refl eq_refl))).
Defined.

(** On a port whose clock is a float: at 2.5 seconds the record of a
    [log] call has the clock's reading and 500 milliseconds; on an integer
    clock the milliseconds are the integer 0. *)
Example fractional_clock :
  (fun R => (LogRecord_created R, LogRecord_msecs R)) <$>
    heap_records (snd (Logger_log 0%nat INFO "up" [] None
                         (set_environment (NFloat (5 # 2)) VNone start))) !! 0%nat
  = Some (NFloat (5 # 2), NFloat (500 # 1)) /\
  (fun R => (LogRecord_created R, LogRecord_msecs R)) <$>
    heap_records (snd (Logger_log 0%nat INFO "up" [] None
                         (set_environment 7 VNone start))) !! 0%nat
  = Some (NInt 7, NInt 0).
Proof. vm_compute. split; reflexivity. Qed.

Example delayed_file_written :
  trace (snd (Handler_emit 1%nat 0%nat delayed_file)) =
  [EvOpen "app.log" "a"; EvWrite (ToFile "app.log") ("up" +:+ newline);
   EvFlush "app.log"].
Proof. vm_compute. reflexivity. Qed.

Lemma reachable_registry_named_witness :
  exists r L, root start = Some r /\ heap_loggers start !! r = Some L /\
              Logger_name L = "root" /\ Logger_handlers L <> None.
Proof.
  exact (proj2 (proj2 (proj2 (proj2 (reachable_registry_named start
                                        (reachable_import 0 VNone)))))).
Defined.

Lemma basicConfig_stream_witness :
  _level (snd (basicConfig DEBUG None (Some (Stream 7)) None "{" start)) = DEBUG.
Proof.
  exact (proj1 (basicConfig_stream DEBUG None (Some (Stream 7)) None "{" start
                  (reachable_import 0 VNone) (or_introl eq_refl))).
Defined.

Lemma basicConfig_file_witness :
  trace (snd (basicConfig DEBUG (Some "app.log") None None "%" start)) =
  trace start ++ [EvOpen "app.log" "a"].
Proof.
  exact (proj1 (proj2 (basicConfig_file DEBUG "a" "pp.log" None None "%" start
                         (reachable_import 0 VNone)))).
Defined.

Example basicConfig_ignores_stream :
  Handler_class <$>
    heap_handlers (snd (basicConfig INFO None (Some (Stream 7)) None "%" start)) !! 1%nat
  = Some (StreamHandler sys_stderr newline).
Proof. vm_compute. reflexivity. Qed.

Lemma Formatter_format_repeatable_witness :
  let st1 := snd (Formatter_format timed_formatter 0%nat delayed_file) in
  fst (Formatter_format timed_formatter 0%nat st1) = Ok "2000-1-1 0:0:0 up" /\
  heap_records (snd (Formatter_format timed_formatter 0%nat st1)) = heap_records st1.
Proof.
  exact (Formatter_format_repeatable timed_formatter 0%nat _ "2000-1-1 0:0:0 up"
           delayed_file eq_refl eq_refl eq_refl).
Defined.

Lemma Handler_configuration_takes_effect_witness :
  heap_handlers (snd (Handler_setLevel 0%nat ERROR start)) !! 0%nat =
  Some (mkHandler default_formatter ERROR (StreamHandler sys_stderr newline)).
Proof.
  exact (proj1 (proj1 (Handler_configuration_takes_effect 0%nat _ start eq_refl) ERROR)).
Defined.

End FurtherRuns.



(** The same call with an argument does not fail: the directive of the
    traceback takes the argument, and what is written is not the traceback
    that was printed. *)
Example traceback_takes_the_argument :
  let out := Logger_exc (host := printing_host key_error_traceback)
               0%nat (VObj 1) "lookup failed" [VStr "db"] None start in
  fst out = Ok tt /\
  trace (snd out) =
    [EvHandle 0%nat 0%nat; EvEmit 0%nat 0%nat;
     EvWrite (ToStream sys_stderr)
       ("lookup failed" +:+ newline +:+
        "Traceback (most recent call last):" +:+ newline +:+
        "  File <stdin>, line 1, in <module>" +:+ newline +:+
        "KeyError: db" +:+ newline +:+ newline)].
Proof. vm_compute. split; reflexivity. Qed.
